(** * Condition extraction of chia-blockchain: [chia/util/condition_tools.py]
      and [chia/types/name_puzzle_condition.py]

    A shallow embedding of the condition parser, the classifier, the
    projection functions, the orchestrator and the NPC aggregate, followed by
    the properties the specification states about them.

    Conventions of the embedding:
    - a Python call that may raise is a computation in [py]: [Return v] or
      [Raise e];
    - the [(error, value)] tuples the parsers return, where exactly one side
      is [None], are values of [checked]: [Good v] is [(None, v)], [Bad e] is
      [(e, None)];
    - a Python [dict] is an insertion-ordered association list ([Dict]);
    - Python values that reach the code unchecked (the elements of
      [as_python()]) stay in the dynamic universe [PyVal]. *)

From Stdlib Require Import List ZArith Lia Bool.
From Stdlib Require Import Strings.Byte.
From Stdlib Require Import Sorting.Permutation.
Import ListNotations.

Set Implicit Arguments.
#[local] Set Warnings "-register-all".

(** ** Python runtime *)

Definition bytes := list byte.
Definition bytes32 := bytes.

(** The exception classes the code raises or handles: Python's own,
    [ConsensusError] of [chia/util/errors.py] and [Program.EvalError]. *)
Inductive exn : Set :=
| IndexError | KeyError | TypeError | ValueError | AttributeError
| ConsensusError | EvalError.

Definition exn_eq_dec (a b : exn) : {a = b} + {a <> b}.
Proof. decide equality. Defined.

Inductive py (A : Type) : Type :=
| Return (a : A)
| Raise (e : exn).
Arguments Return {A} a.
Arguments Raise {A} e.

Definition bind {A B : Type} (c : py A) (k : A -> py B) : py B :=
  match c with
  | Return a => k a
  | Raise e => Raise e
  end.

Notation "x <- c ;; k" := (bind c (fun x => k))
  (at level 61, c at next level, right associativity).

(** [try: body except e: handler] *)
Definition try_except {A : Type} (body : py A) (e : exn) (handler : py A) : py A :=
  match body with
  | Return a => Return a
  | Raise e' => if exn_eq_dec e' e then handler else Raise e'
  end.

(** [l[i]] on a Python list. *)
Definition getitem {A : Type} (l : list A) (i : nat) : py A :=
  match nth_error l i with
  | Some a => Return a
  | None => Raise IndexError
  end.

(** The values [as_python()] produces: byte strings and (nested) lists. *)
Inductive PyVal : Type :=
| PyBytes (b : bytes)
| PyList (items : list PyVal).

Definition isinstance_bytes (v : PyVal) : bool :=
  match v with
  | PyBytes _ => true
  | PyList _ => false
  end.

(** [a + b] where [b] is a byte string: concatenation of byte strings; a list
    on the left is a [TypeError]. *)
Definition add_bytes (a : PyVal) (b : bytes) : py PyVal :=
  match a with
  | PyBytes x => Return (PyBytes (x ++ b))
  | PyList _ => Raise TypeError
  end.

(** ** Insertion-ordered dictionaries *)

Module Dict.
Section Dict.
Context {K V : Type}.
Variable eq_dec : forall a b : K, {a = b} + {a <> b}.

Definition t := list (K * V).

Definition empty : t := [].

(** [d.get(k)] *)
Fixpoint get (d : t) (k : K) : option V :=
  match d with
  | [] => None
  | (k', v) :: r => if eq_dec k k' then Some v else get r k
  end.

(** [k in d] *)
Definition contains (d : t) (k : K) : bool :=
  match get d k with
  | Some _ => true
  | None => false
  end.

(** [d[k]] *)
Definition lookup (d : t) (k : K) : py V :=
  match get d k with
  | Some v => Return v
  | None => Raise KeyError
  end.

(** [d.get(k, dflt)] *)
Definition get_default (d : t) (k : K) (dflt : V) : V :=
  match get d k with
  | Some v => v
  | None => dflt
  end.

(** [d[k] = v]: a present key keeps its position, a new key goes last. *)
Fixpoint set (d : t) (k : K) (v : V) : t :=
  match d with
  | [] => [(k, v)]
  | (k', v') :: r =>
      if eq_dec k k' then (k', v) :: r else (k', v') :: set r k v
  end.

Definition keys (d : t) : list K := map fst d.
Definition values (d : t) : list V := map snd d.
End Dict.
Arguments t : clear implicits.
Arguments empty {K V}.
End Dict.

(** [for x in xs: ret.append(body(x))], started with the list [ret]. *)
Fixpoint for_append {A B : Type} (body : A -> py B) (xs : list A) (ret : list B)
  : py (list B) :=
  match xs with
  | [] => Return ret
  | x :: xs' => y <- body x ;; for_append body xs' (ret ++ [y])
  end.

(** ** Data model *)

(** Modelled from the spec: [chia/types/condition_opcodes.py] is not among
    the sources. The enumeration has the members the specification names
    (section 3) and [condition_tools.py] refers to; [UNKNOWN] is the
    catch-all. *)
Inductive ConditionOpcode : Set :=
| UNKNOWN
| AGG_SIG
| AGG_SIG_ME
| CREATE_COIN
| CREATE_ANNOUNCEMENT_WITH_ID
| CREATE_ANNOUNCEMENT_WITH_PUZZLEHASH.

Definition ConditionOpcode_eq_dec (a b : ConditionOpcode) : {a = b} + {a <> b}.
Proof. decide equality. Defined.

(** Modelled from the spec: the enumeration [Err] of [chia/util/errors.py],
    which is not among the sources, with the two members
    [condition_tools.py] returns: [INVALID_CONDITION] is the specification's
    InvalidCondition, [SEXP_ERROR] its ScriptExecutionError. *)
Inductive Err : Set :=
| INVALID_CONDITION
| SEXP_ERROR.

(** The [(Optional[Err], Optional[A])] return convention. *)
Inductive checked (A : Type) : Type :=
| Good (a : A)
| Bad (e : Err).
Arguments Good {A} a.
Arguments Bad {A} e.

(** Modelled from the spec: [chia/types/condition_var_pair.py] is not among
    the sources. Section 3: "an opcode paired with an ordered list" of
    arguments. [vars] holds values of [as_python()]; the constructor call
    below admits byte strings only, and the projections are stated for
    whatever a mapping holds. *)
Record ConditionVarPair : Type := mkConditionVarPair {
  opcode : ConditionOpcode;
  vars : list PyVal
}.

(** Modelled from the spec: the constructor call
    [ConditionVarPair(opcode, vars)] of [chia/types/condition_var_pair.py],
    which is not among the sources. Section 3: the arguments are "raw
    byte-string arguments"; the constructor checks its fields and raises on
    an argument that is not a byte string. [AttributeError] stands for the
    exception of that check; it is none of the exceptions
    [condition_tools.py] handles. *)
Definition ConditionVarPair_call (opcode : ConditionOpcode) (vars : list PyVal)
  : py ConditionVarPair :=
  if forallb isinstance_bytes vars
  then Return (mkConditionVarPair opcode vars)
  else Raise AttributeError.

(** Modelled from the spec: [chia/types/blockchain_format/program.py] is not
    among the sources. The output of a puzzle is "a nested list-of-lists
    structure": a node is a byte string (atom) or a non-empty list of nodes;
    the empty list is the empty atom. *)
Inductive Program : Type :=
| Atom (a : bytes)
| List (first : Program) (rest : list Program).

(** [sexp.listp()] *)
Definition listp (sexp : Program) : bool :=
  match sexp with
  | Atom _ => false
  | List _ _ => true
  end.

(** [sexp.as_python()] *)
Fixpoint as_python (sexp : Program) : PyVal :=
  match sexp with
  | Atom a => PyBytes a
  | List first rest => PyList (as_python first :: map as_python rest)
  end.

(** The elements of a node, as [items] sees them. *)
Definition elements (sexp : Program) : list Program :=
  match sexp with
  | Atom _ => []
  | List first rest => first :: rest
  end.

(** Modelled from the spec: [sexp.as_iter()] of the absent [Program] class.
    The empty atom iterates as the empty list, a list node yields its
    elements; a structure that "cannot be iterated as a list" raises the
    [ConsensusError] that [parse_sexp_to_conditions] handles. *)
Definition as_iter (sexp : Program) : py (list Program) :=
  match sexp with
  | Atom [] => Return []
  | Atom (_ :: _) => Raise ConsensusError
  | List first rest => Return (first :: rest)
  end.

(** ** Condition parser *)

Section Parser.
(** The opcode table: [ConditionOpcode(value)] finds the member with that
    byte value, [None] stands for [ValueError]. *)
Variable ConditionOpcode_of_value : bytes -> option ConditionOpcode.

(** [ConditionOpcode(v)] *)
Definition ConditionOpcode_call (v : PyVal) : py ConditionOpcode :=
  match v with
  | PyBytes b =>
      match ConditionOpcode_of_value b with
      | Some o => Return o
      | None => Raise ValueError
      end
  | PyList _ => Raise ValueError
  end.

Definition parse_sexp_to_condition (sexp : Program)
  : py (checked ConditionVarPair) :=
  if negb (listp sexp) then Return (Bad INVALID_CONDITION)
  else
    match as_python sexp with
    | PyBytes _ => Raise TypeError (* not reached: [listp] holds *)
    | PyList items =>
        item0 <- getitem items 0 ;;
        if negb (isinstance_bytes item0) then Return (Bad INVALID_CONDITION)
        else
          opcode <- try_except (ConditionOpcode_call item0)
                      ValueError (Return UNKNOWN) ;;
          if Nat.eqb (length items) 3 then
            item1 <- getitem items 1 ;;
            item2 <- getitem items 2 ;;
            cvp <- ConditionVarPair_call opcode [item1; item2] ;;
            Return (Good cvp)
          else
            item1 <- getitem items 1 ;;
            cvp <- ConditionVarPair_call opcode [item1] ;;
            Return (Good cvp)
    end.

(** [parse_sexp_to_conditions]: the loop over [sexp.as_iter()], with the
    list [results] built so far. *)
Fixpoint parse_loop (nodes : list Program) (results : list ConditionVarPair)
  : py (checked (list ConditionVarPair)) :=
  match nodes with
  | [] => Return (Good results)
  | node :: nodes' =>
      r <- parse_sexp_to_condition node ;;
      match r with
      | Bad error => Return (Bad error)
      | Good cvp => parse_loop nodes' (results ++ [cvp])
      end
  end.

Definition parse_sexp_to_conditions (sexp : Program)
  : py (checked (list ConditionVarPair)) :=
  try_except
    (nodes <- as_iter sexp ;; parse_loop nodes [])
    ConsensusError
    (Return (Bad INVALID_CONDITION)).
End Parser.

(** ** Condition classifier *)

Definition ConditionsDict := Dict.t ConditionOpcode (list ConditionVarPair).

Definition cd_get := Dict.get (V := list ConditionVarPair) ConditionOpcode_eq_dec.
Definition cd_set := Dict.set (V := list ConditionVarPair) ConditionOpcode_eq_dec.
Definition cd_contains :=
  Dict.contains (V := list ConditionVarPair) ConditionOpcode_eq_dec.
Definition cd_lookup :=
  Dict.lookup (V := list ConditionVarPair) ConditionOpcode_eq_dec.
Definition cd_get_default :=
  Dict.get_default (V := list ConditionVarPair) ConditionOpcode_eq_dec.

(** One turn of the loop of [conditions_by_opcode]. *)
Definition conditions_by_opcode_step (d : ConditionsDict) (cvp : ConditionVarPair)
  : py ConditionsDict :=
  let d1 := if negb (cd_contains d (opcode cvp))
            then cd_set d (opcode cvp) []
            else d in
  l <- cd_lookup d1 (opcode cvp) ;;
  Return (cd_set d1 (opcode cvp) (l ++ [cvp])).

Fixpoint conditions_by_opcode_loop (conditions : list ConditionVarPair)
  (d : ConditionsDict) : py ConditionsDict :=
  match conditions with
  | [] => Return d
  | cvp :: conditions' =>
      d' <- conditions_by_opcode_step d cvp ;;
      conditions_by_opcode_loop conditions' d'
  end.

Definition conditions_by_opcode (conditions : list ConditionVarPair)
  : py ConditionsDict :=
  conditions_by_opcode_loop conditions Dict.empty.

(** The conditions of a classified mapping as one list, key after key in the
    order of the dictionary. *)
Definition flatten (d : ConditionsDict) : list ConditionVarPair :=
  concat (Dict.values d).

(** ** Projections *)

(** Modelled from the spec: [chia/types/blockchain_format/coin.py] is not
    among the sources. Section 3: "{parent coin identifier, puzzle hash,
    amount}", built by [Coin(parent_id, puzzle_hash, amount)]; [puzzle_hash]
    receives argument 0 of a condition as it is. *)
Record Coin : Type := mkCoin {
  parent_coin_info : bytes32;
  puzzle_hash : PyVal;
  amount : Z
}.

(** Modelled from the spec: [chia/types/announcement.py] is not among the
    sources. Section 3: "a scope identifier (coin id or puzzle hash) and an
    arbitrary message", built by [Announcement(origin_info, message)]. *)
Record Announcement : Type := mkAnnouncement {
  origin_info : PyVal;
  message : PyVal
}.

(** The value of a byte string read as a big-endian natural number, on top
    of the value [acc] of the bytes before it. *)
Fixpoint big_endian (b : bytes) (acc : Z) : Z :=
  match b with
  | [] => acc
  | x :: b' => big_endian b' (acc * 256 + Z.of_N (Byte.to_N x))
  end.

(** Modelled from the spec: [int_from_bytes] of [chia/util/clvm.py], which is
    not among the sources. Section 4.5: the amount is "encoded as a
    big-endian integer", and "decoding must reject negative amounts as an
    error"; an encoding whose leading byte has the sign bit set is the
    negative one. The empty byte string is 0. *)
Definition int_from_bytes (blob : PyVal) : py Z :=
  match blob with
  | PyList _ => Raise TypeError
  | PyBytes [] => Return 0%Z
  | PyBytes (x :: b') =>
      if (128 <=? Byte.to_N x)%N then Raise ValueError
      else Return (big_endian (x :: b') 0)
  end.

Section Signatures.
(** [blspy.G1Element] and its decoder [G1Element.from_bytes]. *)
Variable G1Element : Type.
Variable G1Element_from_bytes : PyVal -> py G1Element.

Definition agg_sig_body (cvp : ConditionVarPair) : py (G1Element * PyVal) :=
  _ <- getitem (vars cvp) 1 ;; (* assert cvp.vars[1] is not None *)
  v0 <- getitem (vars cvp) 0 ;;
  pk <- G1Element_from_bytes v0 ;;
  v1 <- getitem (vars cvp) 1 ;;
  Return (pk, v1).

Definition agg_sig_me_body (coin_name : bytes32) (cvp : ConditionVarPair)
  : py (G1Element * PyVal) :=
  v0 <- getitem (vars cvp) 0 ;;
  pk <- G1Element_from_bytes v0 ;;
  v1 <- getitem (vars cvp) 1 ;;
  msg <- add_bytes v1 coin_name ;;
  Return (pk, msg).

Definition pkm_pairs_for_conditions_dict (conditions_dict : ConditionsDict)
  (coin_name : option bytes32) : py (list (G1Element * PyVal)) :=
  ret <- for_append agg_sig_body
           (cd_get_default conditions_dict AGG_SIG []) [] ;;
  match coin_name with
  | Some coin_name =>
      for_append (agg_sig_me_body coin_name)
        (cd_get_default conditions_dict AGG_SIG_ME []) ret
  | None => Return ret
  end.
End Signatures.

(** [aggsig_in_conditions_dict]: a new list with the conditions under
    AGG_SIG, appended one by one. *)
Definition aggsig_in_conditions_dict (conditions_dict : ConditionsDict)
  : list ConditionVarPair :=
  fold_left (fun agg_sig_conditions cvp => agg_sig_conditions ++ [cvp])
    (cd_get_default conditions_dict AGG_SIG []) [].

Definition created_output_body (input_coin_name : bytes32) (cvp : ConditionVarPair)
  : py Coin :=
  puzzle_hash <- getitem (vars cvp) 0 ;;
  amount_bin <- getitem (vars cvp) 1 ;;
  amount <- int_from_bytes amount_bin ;;
  Return (mkCoin input_coin_name puzzle_hash amount).

Definition created_outputs_for_conditions_dict (conditions_dict : ConditionsDict)
  (input_coin_name : bytes32) : py (list Coin) :=
  for_append (created_output_body input_coin_name)
    (cd_get_default conditions_dict CREATE_COIN []) [].

Section Announcements.
(** [Coin.name()] and [Announcement.name()], the hash identifiers. *)
Variable Coin_name : Coin -> py bytes32.
Variable Announcement_name : Announcement -> py bytes32.

Definition coin_announcement_body (input_coin : Coin) (cvp : ConditionVarPair)
  : py Announcement :=
  message <- getitem (vars cvp) 0 ;;
  name <- Coin_name input_coin ;;
  Return (mkAnnouncement (PyBytes name) message).

Definition coin_announcements_for_conditions_dict
  (conditions_dict : ConditionsDict) (input_coin : Coin) : py (list Announcement) :=
  for_append (coin_announcement_body input_coin)
    (cd_get_default conditions_dict CREATE_ANNOUNCEMENT_WITH_ID []) [].

Definition puzzle_announcement_body (input_coin : Coin) (cvp : ConditionVarPair)
  : py Announcement :=
  message <- getitem (vars cvp) 0 ;;
  Return (mkAnnouncement (puzzle_hash input_coin) message).

Definition puzzle_announcements_for_conditions_dict
  (conditions_dict : ConditionsDict) (input_coin : Coin) : py (list Announcement) :=
  for_append (puzzle_announcement_body input_coin)
    (cd_get_default conditions_dict CREATE_ANNOUNCEMENT_WITH_PUZZLEHASH []) [].

(** [[an.name() for an in ans]] *)
Definition names_of (ans : list Announcement) : py (list bytes32) :=
  for_append Announcement_name ans [].

Definition coin_announcement_names_for_conditions_dict
  (conditions_dict : ConditionsDict) (input_coin : Coin) : py (list bytes32) :=
  ans <- coin_announcements_for_conditions_dict conditions_dict input_coin ;;
  names_of ans.

Definition puzzle_announcement_names_for_conditions_dict
  (conditions_dict : ConditionsDict) (input_coin : Coin) : py (list bytes32) :=
  ans <- puzzle_announcements_for_conditions_dict conditions_dict input_coin ;;
  names_of ans.
End Announcements.

(** ** Orchestrator *)

(** Modelled from the spec: [uint64] of [chia/util/ints.py], which is not
    among the sources; the cost is "a non-negative integer ... opaque to this
    core" and is kept as it is. *)
Definition uint64 (n : Z) : Z := n.

(** The [(error, value)] tuple of a [checked] result. *)
Definition unpack {A : Type} (c : checked A) : option Err * option A :=
  match c with
  | Good a => (None, Some a)
  | Bad e => (Some e, None)
  end.

Section Orchestrator.
Variable ConditionOpcode_of_value : bytes -> option ConditionOpcode.
(** [puzzle_reveal.run_with_cost(solution)]: the interpreter; it returns
    the cost and the output or raises [EvalError]. *)
Variable run_with_cost : Program -> Program -> py (Z * Program).

Definition conditions_for_solution (puzzle_reveal solution : Program)
  : py (option Err * option (list ConditionVarPair) * Z) :=
  try_except
    (cr <- run_with_cost puzzle_reveal solution ;;
     er <- parse_sexp_to_conditions ConditionOpcode_of_value (snd cr) ;;
     Return (fst (unpack er), snd (unpack er), uint64 (fst cr)))
    EvalError
    (Return (Some SEXP_ERROR, None, uint64 0)).

Definition conditions_dict_for_solution (puzzle_reveal solution : Program)
  : py (option Err * option ConditionsDict * Z) :=
  erc <- conditions_for_solution puzzle_reveal solution ;;
  match erc with
  | (None, Some result, cost) =>
      d <- conditions_by_opcode result ;;
      Return (None, Some d, cost)
  | (error, _, _) => Return (error, None, uint64 0)
  end.
End Orchestrator.

(** ** The NPC aggregate ([chia/types/name_puzzle_condition.py]) *)

Module NamePuzzleCondition.
Record NPC : Type := mkNPC {
  coin_name : bytes32;
  puzzle_hash : bytes32;
  conditions : list (ConditionOpcode * list ConditionVarPair)
}.

(** The property [condition_dict]: [d[opcode] = l] for every pair. *)
Definition condition_dict (self : NPC) : ConditionsDict :=
  fold_left (fun d ol => cd_set d (fst ol) (snd ol)) (conditions self)
    Dict.empty.
End NamePuzzleCondition.

(** ** Batch projections over NPCs *)

Section BatchAnnouncements.
Variable Announcement_name : Announcement -> py bytes32.

(** The body of the innermost loop of the two batch functions:
    [message = cvp.vars[0]], then the [name()] of
    [Announcement(origin, message)]. *)
Definition announcement_name_body (origin : bytes32) (cvp : ConditionVarPair)
  : py bytes32 :=
  message <- getitem (vars cvp) 0 ;;
  Announcement_name (mkAnnouncement (PyBytes origin) message).

(** [for condition, cvp_list in npc.conditions: if condition == target: ...],
    with the list [output_announcements] built so far. *)
Fixpoint npc_conditions_loop (target : ConditionOpcode) (origin : bytes32)
  (conditions : list (ConditionOpcode * list ConditionVarPair))
  (output_announcements : list bytes32) : py (list bytes32) :=
  match conditions with
  | [] => Return output_announcements
  | (condition, cvp_list) :: conditions' =>
      out <- (if ConditionOpcode_eq_dec condition target
              then for_append (announcement_name_body origin) cvp_list
                     output_announcements
              else Return output_announcements) ;;
      npc_conditions_loop target origin conditions' out
  end.

(** [for npc in npc_list: ...]. The two batch functions of the source are
    this loop, with their own opcode and their own field of the NPC. *)
Fixpoint npc_list_loop (target : ConditionOpcode)
  (origin_of : NamePuzzleCondition.NPC -> bytes32)
  (npc_list : list NamePuzzleCondition.NPC)
  (output_announcements : list bytes32) : py (list bytes32) :=
  match npc_list with
  | [] => Return output_announcements
  | npc :: npc_list' =>
      out <- npc_conditions_loop target (origin_of npc)
               (NamePuzzleCondition.conditions npc) output_announcements ;;
      npc_list_loop target origin_of npc_list' out
  end.

Definition coin_announcements_names_for_npc
  (npc_list : list NamePuzzleCondition.NPC) : py (list bytes32) :=
  npc_list_loop CREATE_ANNOUNCEMENT_WITH_ID NamePuzzleCondition.coin_name
    npc_list [].

Definition puzzle_announcements_names_for_npc
  (npc_list : list NamePuzzleCondition.NPC) : py (list bytes32) :=
  npc_list_loop CREATE_ANNOUNCEMENT_WITH_PUZZLEHASH
    NamePuzzleCondition.puzzle_hash npc_list [].
End BatchAnnouncements.


(** ** Concrete inputs used by the examples *)

(** An opcode table with the two byte values the specification gives:
    51 is CREATE_COIN and 60 is CREATE_ANNOUNCEMENT_WITH_ID. *)
Definition sample_table (value : bytes) : option ConditionOpcode :=
  match value with
  | [x33] => Some CREATE_COIN
  | [x3c] => Some CREATE_ANNOUNCEMENT_WITH_ID
  | _ => None
  end.

(** [(51 0xaa 0x64 0x01)]: a CREATE_COIN node with four elements. *)
Definition four_element_node : Program :=
  List (Atom [x33]) [Atom [xaa]; Atom [x64]; Atom [x01]].

(** [(51)]: a node with the opcode alone. *)
Definition one_element_node : Program := List (Atom [x33]) [].

(** [(0x01)]: an output whose only element is an atom, which the parser of
    one node rejects. *)
Definition rejected_output : Program := List (Atom [x01]) [].

(** An interpreter that reports cost 7 and the output [rejected_output]. *)
Definition costly_run (puzzle_reveal solution : Program) : py (Z * Program) :=
  Return (7%Z, rejected_output).

(** An interpreter that raises its evaluation error. *)
Definition failing_run (puzzle_reveal solution : Program) : py (Z * Program) :=
  Raise EvalError.

(** [(0x63 0x01)]: a node whose opcode byte the sample table does not have. *)
Definition unknown_opcode_node : Program := List (Atom [x63]) [Atom [x01]].

(** A key decoder for the examples: a non-empty byte string is its own key. *)
Definition sample_from_bytes (v : PyVal) : py bytes :=
  match v with
  | PyBytes (x :: b) => Return (x :: b)
  | PyBytes [] => Raise ValueError
  | PyList _ => Raise TypeError
  end.

(** [Coin.name()] and [Announcement.name()] for the examples: the
    concatenation of the byte-string fields stands for their hash. *)
Definition sample_Coin_name (c : Coin) : py bytes32 :=
  match puzzle_hash c with
  | PyBytes ph => Return (parent_coin_info c ++ ph)
  | PyList _ => Raise TypeError
  end.

Definition sample_Announcement_name (a : Announcement) : py bytes32 :=
  match origin_info a, message a with
  | PyBytes o, PyBytes m => Return (o ++ m)
  | _, _ => Raise TypeError
  end.

(** A classified mapping with one condition under each of AGG_SIG,
    AGG_SIG_ME, CREATE_COIN and the two announcement opcodes. *)
Definition sample_dict : ConditionsDict :=
  [ (AGG_SIG, [mkConditionVarPair AGG_SIG [PyBytes [x0a]; PyBytes [x0b]]]);
    (AGG_SIG_ME, [mkConditionVarPair AGG_SIG_ME [PyBytes [x0c]; PyBytes [x0d]]]);
    (CREATE_COIN, [mkConditionVarPair CREATE_COIN [PyBytes [xaa]; PyBytes [x01; x00]]]);
    (CREATE_ANNOUNCEMENT_WITH_ID,
      [mkConditionVarPair CREATE_ANNOUNCEMENT_WITH_ID [PyBytes [x6d]]]);
    (CREATE_ANNOUNCEMENT_WITH_PUZZLEHASH,
      [mkConditionVarPair CREATE_ANNOUNCEMENT_WITH_PUZZLEHASH [PyBytes [x6e]]]) ].

(** A classified mapping whose CREATE_COIN condition has the amount 0xff. *)
Definition negative_amount_dict : ConditionsDict :=
  [ (CREATE_COIN, [mkConditionVarPair CREATE_COIN [PyBytes [xaa]; PyBytes [xff]]]) ].

Definition sample_coin : Coin := mkCoin [x50] (PyBytes [xbb]) 5.

(** An NPC whose raw conditions have two pairs with the opcode AGG_SIG. *)
Definition repeated_opcode_npc : NamePuzzleCondition.NPC :=
  NamePuzzleCondition.mkNPC [x50] [xbb]
    [ (AGG_SIG, [mkConditionVarPair AGG_SIG [PyBytes [x0a]; PyBytes [x0b]]]);
      (CREATE_COIN, [mkConditionVarPair CREATE_COIN [PyBytes [xaa]; PyBytes [x01]]]);
      (AGG_SIG, [mkConditionVarPair AGG_SIG [PyBytes [x0c]; PyBytes [x0d]]]) ].

(** [((0x63 0x01) 0x01)]: an output whose first element parses and whose
    second element is an atom. *)
Definition partly_valid_output : Program :=
  List unknown_opcode_node [Atom [x01]].

(** [((51 0xaa 100))] and [((60 0x6d))]: the outputs of the two end-to-end
    scenarios of the specification (section 8), and interpreters that
    return them with cost 11. *)
Definition create_coin_output : Program :=
  List (List (Atom [x33]) [Atom [xaa]; Atom [x64]]) [].

Definition announcement_output : Program :=
  List (List (Atom [x3c]) [Atom [x6d]]) [].

Definition create_coin_run (puzzle_reveal solution : Program)
  : py (Z * Program) :=
  Return (11%Z, create_coin_output).

Definition announcement_run (puzzle_reveal solution : Program)
  : py (Z * Program) :=
  Return (11%Z, announcement_output).

(** A classified mapping whose second AGG_SIG condition has an empty key,
    which [sample_from_bytes] does not decode. *)
Definition bad_key_dict : ConditionsDict :=
  [ (AGG_SIG, [ mkConditionVarPair AGG_SIG [PyBytes [x0a]; PyBytes [x0b]];
                mkConditionVarPair AGG_SIG [PyBytes []; PyBytes [x0b]] ]) ].

(** A classified mapping whose second CREATE_COIN condition has the puzzle
    hash alone. *)
Definition short_create_coin_dict : ConditionsDict :=
  [ (CREATE_COIN,
      [ mkConditionVarPair CREATE_COIN [PyBytes [xaa]; PyBytes [x64]];
        mkConditionVarPair CREATE_COIN [PyBytes [xab]] ]) ].

(** An NPC with one pair per opcode: a coin announcement and a puzzle
    announcement; its coin name is the name [sample_Coin_name] gives
    [sample_coin]. *)
Definition announcing_npc : NamePuzzleCondition.NPC :=
  NamePuzzleCondition.mkNPC [x50; xbb] [xbb]
    [ (CREATE_ANNOUNCEMENT_WITH_ID,
        [mkConditionVarPair CREATE_ANNOUNCEMENT_WITH_ID [PyBytes [x6d]]]);
      (CREATE_ANNOUNCEMENT_WITH_PUZZLEHASH,
        [mkConditionVarPair CREATE_ANNOUNCEMENT_WITH_PUZZLEHASH [PyBytes [x6e]]]) ].

(** [((0x63 0x01) (51))]: an output whose first element parses and whose
    second element is the opcode alone, and an interpreter that returns it
    with cost 7. *)
Definition opcode_alone_output : Program :=
  List unknown_opcode_node [one_element_node].

Definition opcode_alone_run (puzzle_reveal solution : Program)
  : py (Z * Program) :=
  Return (7%Z, opcode_alone_output).

(** ** Vocabulary of the statements *)

(** The outputs of a loop body, one per element and in order. *)
Definition yields {A B : Type} (body : A -> py B) (xs : list A) (ys : list B)
  : Prop :=
  Forall2 (fun x y => body x = Return y) xs ys.

(** [cvp.opcode == op] *)
Definition has_opcode (op : ConditionOpcode) (cvp : ConditionVarPair) : bool :=
  if ConditionOpcode_eq_dec (opcode cvp) op then true else false.

(** What one turn of the loop of [conditions_by_opcode] leaves in [d]. *)
Definition classify_add (d : ConditionsDict) (cvp : ConditionVarPair)
  : ConditionsDict :=
  cd_set d (opcode cvp) (cd_get_default d (opcode cvp) [] ++ [cvp]).

(** An entry of a classified mapping: a non-empty list of conditions that
    all have the key as opcode. *)
Definition group_ok (kv : ConditionOpcode * list ConditionVarPair) : Prop :=
  snd kv <> [] /\ Forall (fun cvp => opcode cvp = fst kv) (snd kv).

(** A mapping as the classifier builds them: no key twice, every entry a
    group. *)
Definition grouped (d : ConditionsDict) : Prop :=
  NoDup (Dict.keys d) /\ Forall group_ok d.

(** The pair an AGG_SIG condition demands: the key decoded from argument 0
    and argument 1 as it is. *)
Definition agg_sig_pair {G1Element : Type} (from_bytes : PyVal -> py G1Element)
  (cvp : ConditionVarPair) (pair : G1Element * PyVal) : Prop :=
  exists key msg,
    nth_error (vars cvp) 0 = Some key /\
    nth_error (vars cvp) 1 = Some msg /\
    from_bytes key = Return (fst pair) /\
    snd pair = msg.

(** The pair an AGG_SIG_ME condition demands for the coin [coin_name]: the
    key decoded from argument 0 and argument 1 followed by the coin name. *)
Definition agg_sig_me_pair {G1Element : Type} (from_bytes : PyVal -> py G1Element)
  (coin_name : bytes32) (cvp : ConditionVarPair) (pair : G1Element * PyVal)
  : Prop :=
  exists key msg,
    nth_error (vars cvp) 0 = Some key /\
    nth_error (vars cvp) 1 = Some (PyBytes msg) /\
    from_bytes key = Return (fst pair) /\
    snd pair = PyBytes (msg ++ coin_name).

(** An encoding that would stand for a negative amount: the sign bit of its
    leading byte is set. *)
Definition negative_encoding (b : bytes) : bool :=
  match b with
  | [] => false
  | x :: _ => (128 <=? Byte.to_N x)%N
  end.

(** The coin a CREATE_COIN condition creates when [parent] is spent. *)
Definition created_coin (parent : bytes32) (cvp : ConditionVarPair) (coin : Coin)
  : Prop :=
  exists ph amount_bin,
    nth_error (vars cvp) 0 = Some ph /\
    nth_error (vars cvp) 1 = Some (PyBytes amount_bin) /\
    negative_encoding amount_bin = false /\
    coin = mkCoin parent ph (big_endian amount_bin 0).

(** The announcement a CREATE_ANNOUNCEMENT_WITH_ID condition creates. *)
Definition coin_announcement (Coin_name : Coin -> py bytes32) (input_coin : Coin)
  (cvp : ConditionVarPair) (an : Announcement) : Prop :=
  exists msg name,
    nth_error (vars cvp) 0 = Some msg /\
    Coin_name input_coin = Return name /\
    an = mkAnnouncement (PyBytes name) msg.

(** The announcement a CREATE_ANNOUNCEMENT_WITH_PUZZLEHASH condition creates. *)
Definition puzzle_announcement (input_coin : Coin) (cvp : ConditionVarPair)
  (an : Announcement) : Prop :=
  exists msg,
    nth_error (vars cvp) 0 = Some msg /\
    an = mkAnnouncement (puzzle_hash input_coin) msg.

(** What is left of the outcome of [parse_sexp_to_condition] when the opcode
    is put aside: the arguments, the returned error or the exception. *)
Definition outcome_without_opcode (r : py (checked ConditionVarPair))
  : py (checked (list PyVal)) :=
  match r with
  | Return (Good cvp) => Return (Good (vars cvp))
  | Return (Bad e) => Return (Bad e)
  | Raise x => Raise x
  end.

(** The conditions a pair list holds for [target], pair after pair. *)
Definition conditions_of_opcode (target : ConditionOpcode)
  (conditions : list (ConditionOpcode * list ConditionVarPair))
  : list ConditionVarPair :=
  concat (map snd
            (filter (fun ol => if ConditionOpcode_eq_dec (fst ol) target
                               then true else false)
               conditions)).

(** The conditions the batch scan for [target] visits, NPC after NPC, each
    with the scope [origin_of] gives its NPC. *)
Definition scoped_conditions (target : ConditionOpcode)
  (origin_of : NamePuzzleCondition.NPC -> bytes32)
  (npc_list : list NamePuzzleCondition.NPC) : list (bytes32 * ConditionVarPair) :=
  flat_map (fun npc =>
              map (pair (origin_of npc))
                (conditions_of_opcode target (NamePuzzleCondition.conditions npc)))
    npc_list.

(** The name the batch scan gives a visited condition. *)
Definition scoped_name (Announcement_name : Announcement -> py bytes32)
  (sc : bytes32 * ConditionVarPair) (name : bytes32) : Prop :=
  exists msg,
    nth_error (vars (snd sc)) 0 = Some msg /\
    Announcement_name (mkAnnouncement (PyBytes (fst sc)) msg) = Return name.

(** [not sexp.listp()]: the node is a byte string. *)
Definition atomp (sexp : Program) : bool := negb (listp sexp).

(** The elements after the first of a node are byte strings. *)
Definition byte_string_arguments (node : Program) : bool :=
  forallb atomp (tl (elements node)).

(** * Properties *)

(** ** The runtime: [bind], [for_append], dictionaries *)

Lemma bind_Return_inv {A B : Type} (c : py A) (k : A -> py B) (b : B) :
  bind c k = Return b -> exists a, c = Return a /\ k a = Return b.
Proof.
  destruct c as [a|e]; simpl; intros H; [eauto | discriminate].
Qed.

Lemma getitem_Return {A : Type} (l : list A) (i : nat) (a : A) :
  getitem l i = Return a <-> nth_error l i = Some a.
Proof.
  unfold getitem. destruct (nth_error l i); split; intros H;
    try discriminate; inversion H; reflexivity.
Qed.

Section ForAppend.
Context {A B : Type}.
Variable body : A -> py B.
Abbreviation yields := (yields body).

Lemma for_append_yields (xs : list A) : forall (ys : list B) (ret : list B),
  yields xs ys -> for_append body xs ret = Return (ret ++ ys).
Proof.
  induction xs as [|x xs IH]; intros ys ret H.
  - inversion H; subst; simpl. now rewrite app_nil_r.
  - inversion H as [|x' y xs' ys' Hxy Hrest]; subst; simpl.
    rewrite Hxy. simpl. rewrite (IH ys' (ret ++ [y]) Hrest).
    now rewrite <- app_assoc.
Qed.

Lemma for_append_Return_inv (xs : list A) : forall (ret out : list B),
  for_append body xs ret = Return out ->
  exists ys, yields xs ys /\ out = ret ++ ys.
Proof.
  induction xs as [|x xs IH]; simpl; intros ret out H.
  - inversion H; subst. exists []. split; [constructor | now rewrite app_nil_r].
  - apply bind_Return_inv in H. destruct H as [y [Hy H]].
    apply IH in H. destruct H as [ys [Hys ->]].
    exists (y :: ys). split; [now constructor | now rewrite <- app_assoc].
Qed.

Lemma for_append_Return (xs : list A) (out : list B) :
  for_append body xs [] = Return out <-> yields xs out.
Proof.
  split.
  - intros H. apply for_append_Return_inv in H.
    destruct H as [ys [Hys ->]]. exact Hys.
  - intros H. now rewrite (for_append_yields [] H).
Qed.

Lemma for_append_Raise_In (xs : list A) (x : A) (e : exn) (ret out : list B) :
  In x xs -> body x = Raise e -> for_append body xs ret <> Return out.
Proof.
  intros Hin Hx H. apply for_append_Return_inv in H.
  destruct H as [ys [Hys _]].
  unfold yields in Hys. revert Hin. induction Hys as [|x' y xs' ys' Hxy _ IH].
  - intros [].
  - intros [-> | Hin]; [congruence | auto].
Qed.
End ForAppend.

Section DictFacts.
Context {K V : Type}.
Variable eq_dec : forall a b : K, {a = b} + {a <> b}.

Abbreviation get := (Dict.get eq_dec).
Abbreviation set := (Dict.set eq_dec).

Lemma get_set_same (d : Dict.t K V) (k : K) (v : V) :
  get (set d k v) k = Some v.
Proof.
  induction d as [|[k' v'] d IH]; simpl.
  - destruct (eq_dec k k); congruence.
  - destruct (eq_dec k k') as [->|Hne]; simpl.
    + destruct (eq_dec k' k'); congruence.
    + destruct (eq_dec k k'); congruence.
Qed.

Lemma get_set_other (d : Dict.t K V) (k k' : K) (v : V) :
  k <> k' -> get (set d k v) k' = get d k'.
Proof.
  intros Hne. induction d as [|[k1 v1] d IH]; simpl.
  - destruct (eq_dec k' k); congruence.
  - destruct (eq_dec k k1) as [->|H1]; simpl.
    + destruct (eq_dec k' k1); congruence.
    + destruct (eq_dec k' k1); congruence.
Qed.

Lemma set_set (d : Dict.t K V) (k : K) (v v' : V) :
  set (set d k v) k v' = set d k v'.
Proof.
  induction d as [|[k1 v1] d IH]; simpl.
  - destruct (eq_dec k k); congruence.
  - destruct (eq_dec k k1) as [->|H1]; simpl.
    + destruct (eq_dec k1 k1); congruence.
    + destruct (eq_dec k k1); congruence.
Qed.

Lemma get_None_keys (d : Dict.t K V) (k : K) :
  get d k = None <-> ~ In k (Dict.keys d).
Proof.
  induction d as [|[k1 v1] d IH]; simpl.
  - tauto.
  - destruct (eq_dec k k1) as [->|H1].
    + split; [discriminate | intros H; exfalso; auto].
    + rewrite IH. split; [intros H [E|Hin]; [congruence | auto] | tauto].
Qed.

Lemma set_absent (d : Dict.t K V) (k : K) (v : V) :
  get d k = None -> set d k v = d ++ [(k, v)].
Proof.
  induction d as [|[k1 v1] d IH]; simpl; intros H.
  - reflexivity.
  - destruct (eq_dec k k1); [discriminate | now rewrite IH].
Qed.

Lemma get_app_absent (d0 d : Dict.t K V) (k : K) :
  get d0 k = None -> get (d0 ++ d) k = get d k.
Proof.
  induction d0 as [|[k1 v1] d0 IH]; simpl; intros H.
  - reflexivity.
  - destruct (eq_dec k k1); [discriminate | auto].
Qed.

Lemma set_app_last (d0 : Dict.t K V) (k : K) (v v' : V) :
  get d0 k = None -> set (d0 ++ [(k, v)]) k v' = d0 ++ [(k, v')].
Proof.
  induction d0 as [|[k1 v1] d0 IH]; simpl; intros H.
  - destruct (eq_dec k k); congruence.
  - destruct (eq_dec k k1); [discriminate | now rewrite IH].
Qed.
End DictFacts.

(** ** The condition parser *)

Section ParserFacts.
Variable table : bytes -> option ConditionOpcode.


Lemma parse_atom (a : bytes) :
  parse_sexp_to_condition table (Atom a) = Return (Bad INVALID_CONDITION).
Proof. reflexivity. Qed.

Lemma parse_first_not_bytes (f : Program) (r rest : list Program) :
  parse_sexp_to_condition table (List (List f r) rest)
  = Return (Bad INVALID_CONDITION).
Proof. reflexivity. Qed.

(** A node with the opcode alone: [items[1]] is out of range. *)
Lemma parse_one_element (b : bytes) :
  parse_sexp_to_condition table (List (Atom b) []) = Raise IndexError.
Proof.
  unfold parse_sexp_to_condition, ConditionOpcode_call. simpl.
  destruct (table b); reflexivity.
Qed.

Lemma parse_two_elements (b : bytes) (a1 : Program) :
  parse_sexp_to_condition table (List (Atom b) [a1])
  = (cvp <- ConditionVarPair_call
              (match table b with Some o => o | None => UNKNOWN end)
              [as_python a1] ;;
     Return (Good cvp)).
Proof.
  unfold parse_sexp_to_condition, ConditionOpcode_call. simpl.
  destruct (table b); reflexivity.
Qed.

Lemma parse_three_elements (b : bytes) (a1 a2 : Program) :
  parse_sexp_to_condition table (List (Atom b) [a1; a2])
  = (cvp <- ConditionVarPair_call
              (match table b with Some o => o | None => UNKNOWN end)
              [as_python a1; as_python a2] ;;
     Return (Good cvp)).
Proof.
  unfold parse_sexp_to_condition, ConditionOpcode_call. simpl.
  destruct (table b); reflexivity.
Qed.

Lemma parse_more_elements (b : bytes) (a1 a2 a3 : Program) (rest : list Program) :
  parse_sexp_to_condition table (List (Atom b) (a1 :: a2 :: a3 :: rest))
  = (cvp <- ConditionVarPair_call
              (match table b with Some o => o | None => UNKNOWN end)
              [as_python a1] ;;
     Return (Good cvp)).
Proof.
  unfold parse_sexp_to_condition, ConditionOpcode_call. simpl.
  destruct (table b); reflexivity.
Qed.

(** The constructor call returns the record of its arguments when they are
    byte strings, and raises otherwise. *)
Lemma ConditionVarPair_call_cases (op : ConditionOpcode) (vs : list PyVal) :
  (forallb isinstance_bytes vs = true /\
   ConditionVarPair_call op vs = Return (mkConditionVarPair op vs)) \/
  (forallb isinstance_bytes vs = false /\
   ConditionVarPair_call op vs = Raise AttributeError).
Proof.
  unfold ConditionVarPair_call.
  destruct (forallb isinstance_bytes vs); [left | right]; split; reflexivity.
Qed.

(** What the parser does with the condition the constructor call gives. *)
Lemma construct_Good_inv (op : ConditionOpcode) (vs : list PyVal)
  (cvp : ConditionVarPair) :
  (c <- ConditionVarPair_call op vs ;; Return (Good c)) = Return (Good cvp) ->
  cvp = mkConditionVarPair op vs /\ forallb isinstance_bytes vs = true.
Proof.
  destruct (ConditionVarPair_call_cases op vs) as [[Hb ->] | [Hb ->]];
    simpl; intros H; [now inversion H | discriminate].
Qed.

Lemma construct_not_Bad (op : ConditionOpcode) (vs : list PyVal) (e : Err) :
  (c <- ConditionVarPair_call op vs ;; Return (Good c)) <> Return (Bad e).
Proof.
  destruct (ConditionVarPair_call_cases op vs) as [[Hb ->] | [Hb ->]];
    simpl; discriminate.
Qed.

Lemma construct_Raise_inv (op : ConditionOpcode) (vs : list PyVal) (x : exn) :
  (c <- ConditionVarPair_call op vs ;; Return (Good c)) = Raise x ->
  x = AttributeError /\ forallb isinstance_bytes vs = false.
Proof.
  destruct (ConditionVarPair_call_cases op vs) as [[Hb ->] | [Hb ->]];
    simpl; intros H; [discriminate | now inversion H].
Qed.

Lemma isinstance_bytes_as_python (sexp : Program) :
  isinstance_bytes (as_python sexp) = atomp sexp.
Proof. destruct sexp; reflexivity. Qed.

Lemma forallb_bytes_as_python (args : list Program) :
  forallb isinstance_bytes (map as_python args) = forallb atomp args.
Proof.
  induction args as [|a args IH]; simpl.
  - reflexivity.
  - now rewrite isinstance_bytes_as_python, IH.
Qed.

(** The exceptions the parser of one node raises: [IndexError] of
    [items[1]] and the exception of the constructor. *)
Lemma parse_raise_classes (node : Program) (x : exn) :
  parse_sexp_to_condition table node = Raise x ->
  x = IndexError \/ x = AttributeError.
Proof.
  destruct node as [a|[b|f r] rest].
  - rewrite parse_atom. discriminate.
  - destruct rest as [|a1 [|a2 [|a3 rest]]].
    + rewrite parse_one_element. intros H. left. congruence.
    + rewrite parse_two_elements. intros H. right.
      exact (proj1 (construct_Raise_inv _ _ H)).
    + rewrite parse_three_elements. intros H. right.
      exact (proj1 (construct_Raise_inv _ _ H)).
    + rewrite parse_more_elements. intros H. right.
      exact (proj1 (construct_Raise_inv _ _ H)).
  - rewrite parse_first_not_bytes. discriminate.
Qed.

(** An argument that is a list makes the constructor call raise: the first
    argument of any node, the second of a node with three elements. *)
Lemma parse_list_argument_raises (b : bytes) (f : Program) (r : list Program) :
  (forall rest : list Program,
     exists x, parse_sexp_to_condition table (List (Atom b) (List f r :: rest))
               = Raise x) /\
  (forall a1 : Program,
     exists x, parse_sexp_to_condition table (List (Atom b) [a1; List f r])
               = Raise x).
Proof.
  split.
  - intros [|a2 [|a3 rest]].
    + rewrite parse_two_elements. now exists AttributeError.
    + rewrite parse_three_elements. now exists AttributeError.
    + rewrite parse_more_elements. now exists AttributeError.
  - intros a1. rewrite parse_three_elements. exists AttributeError.
    unfold ConditionVarPair_call. simpl.
    destruct (isinstance_bytes (as_python a1)); reflexivity.
Qed.

(** C1 (amended): a node that is not list-shaped, or whose first element is
    not a byte string, fails with INVALID_CONDITION. A list-shaped node whose
    first element is a byte string, that has at least two elements and whose
    arguments are byte strings parses to a ConditionVarPair whose opcode is
    the table's member for the first element (UNKNOWN when there is none);
    its arguments are the two remaining elements, in order, when the node
    has exactly three elements, and the element at index 1 alone when it has
    two elements or more than three (the elements after index 1 are then
    ignored, whatever they are). *)
Theorem parse_sexp_to_condition_shapes :
  (forall a : bytes,
     parse_sexp_to_condition table (Atom a) = Return (Bad INVALID_CONDITION)) /\
  (forall (f : Program) (r rest : list Program),
     parse_sexp_to_condition table (List (List f r) rest)
     = Return (Bad INVALID_CONDITION)) /\
  (forall b a1 : bytes,
     parse_sexp_to_condition table (List (Atom b) [Atom a1])
     = Return (Good (mkConditionVarPair
                       (match table b with Some o => o | None => UNKNOWN end)
                       [PyBytes a1]))) /\
  (forall b a1 a2 : bytes,
     parse_sexp_to_condition table (List (Atom b) [Atom a1; Atom a2])
     = Return (Good (mkConditionVarPair
                       (match table b with Some o => o | None => UNKNOWN end)
                       [PyBytes a1; PyBytes a2]))) /\
  (forall (b a1 : bytes) (a2 a3 : Program) (rest : list Program),
     parse_sexp_to_condition table (List (Atom b) (Atom a1 :: a2 :: a3 :: rest))
     = Return (Good (mkConditionVarPair
                       (match table b with Some o => o | None => UNKNOWN end)
                       [PyBytes a1]))).
Proof.
  split; [exact parse_atom|].
  split; [exact parse_first_not_bytes|].
  split; [intros b a1; now rewrite parse_two_elements|].
  split.
  - intros b a1 a2. now rewrite parse_three_elements.
  - intros b a1 a2 a3 rest. now rewrite parse_more_elements.
Qed.

(** The outcome of the loop of [parse_sexp_to_conditions] when every node
    parses. *)
Lemma parse_loop_all_good (nodes : list Program) :
  forall (cvps results : list ConditionVarPair),
  Forall2 (fun n c => parse_sexp_to_condition table n = Return (Good c)) nodes cvps ->
  parse_loop table nodes results = Return (Good (results ++ cvps)).
Proof.
  induction nodes as [|n nodes IH]; intros cvps results H.
  - inversion H; subst. simpl. now rewrite app_nil_r.
  - inversion H as [|n' c ns cs Hn Hrest]; subst. simpl.
    rewrite Hn. simpl. rewrite (IH cs (results ++ [c]) Hrest).
    now rewrite <- app_assoc.
Qed.

Lemma parse_loop_Good_inv (nodes : list Program) :
  forall (results out : list ConditionVarPair),
  parse_loop table nodes results = Return (Good out) ->
  exists cvps,
    Forall2 (fun n c => parse_sexp_to_condition table n = Return (Good c)) nodes cvps
    /\ out = results ++ cvps.
Proof.
  induction nodes as [|n nodes IH]; simpl; intros results out H.
  - inversion H; subst. exists []. split; [constructor | now rewrite app_nil_r].
  - apply bind_Return_inv in H. destruct H as [[c|e] [Hn H]]; [|discriminate].
    apply IH in H. destruct H as [cvps [Hc ->]].
    exists (c :: cvps). split; [now constructor | now rewrite <- app_assoc].
Qed.

(** The outcome of the loop at the first node that does not parse. *)
Lemma parse_loop_first_failure (pre : list Program) :
  forall (node : Program) (post : list Program)
         (cvps results : list ConditionVarPair),
  Forall2 (fun n c => parse_sexp_to_condition table n = Return (Good c)) pre cvps ->
  parse_loop table (pre ++ node :: post) results
  = match parse_sexp_to_condition table node with
    | Return (Bad e) => Return (Bad e)
    | Return (Good c) => parse_loop table post (results ++ cvps ++ [c])
    | Raise x => Raise x
    end.
Proof.
  induction pre as [|n pre IH]; intros node post cvps results H.
  - inversion H; subst. simpl.
    destruct (parse_sexp_to_condition table node) as [[c|e]|x]; reflexivity.
  - inversion H as [|n' c ns cs Hn Hrest]; subst. simpl.
    rewrite Hn. simpl. rewrite (IH node post cs (results ++ [c]) Hrest).
    destruct (parse_sexp_to_condition table node) as [[c'|e]|x]; try reflexivity.
    now rewrite <- app_assoc.
Qed.

Lemma as_iter_Raise (sexp : Program) (e : exn) :
  as_iter sexp = Raise e -> e = ConsensusError.
Proof.
  destruct sexp as [[|x a]|f rest]; simpl; congruence.
Qed.

(** C5: [parse_sexp_to_conditions] applies [parse_sexp_to_condition] to the
    elements of the output in order. It returns a list exactly when the
    output can be iterated and every element parses, and the list is then
    the parsed conditions in source order. At the first element that fails,
    the call fails with the error of that element ([Bad e] carries no list).
    An output that cannot be iterated fails with INVALID_CONDITION. *)
Theorem parse_sexp_to_conditions_first_failure (sexp : Program) :
  (forall cvps : list ConditionVarPair,
     parse_sexp_to_conditions table sexp = Return (Good cvps) <->
     exists nodes,
       as_iter sexp = Return nodes /\
       Forall2 (fun n c => parse_sexp_to_condition table n = Return (Good c))
         nodes cvps) /\
  (forall (pre : list Program) (node : Program) (post : list Program)
          (cvps : list ConditionVarPair),
     as_iter sexp = Return (pre ++ node :: post) ->
     Forall2 (fun n c => parse_sexp_to_condition table n = Return (Good c))
       pre cvps ->
     (forall e : Err,
        parse_sexp_to_condition table node = Return (Bad e) ->
        parse_sexp_to_conditions table sexp = Return (Bad e)) /\
     (forall x : exn,
        parse_sexp_to_condition table node = Raise x ->
        parse_sexp_to_conditions table sexp = Raise x)) /\
  (forall e : exn,
     as_iter sexp = Raise e ->
     parse_sexp_to_conditions table sexp = Return (Bad INVALID_CONDITION)).
Proof.
  unfold parse_sexp_to_conditions. split; [|split].
  - intros cvps. split.
    + intros H. destruct (as_iter sexp) as [nodes|e] eqn:Hiter; simpl in H.
      * exists nodes. split; [reflexivity|].
        destruct (parse_loop table nodes []) as [[out|e]|x] eqn:Hloop;
          simpl in H; try discriminate.
        -- inversion H; subst.
           apply parse_loop_Good_inv in Hloop. destruct Hloop as [cs [Hcs ->]].
           exact Hcs.
        -- destruct (exn_eq_dec x ConsensusError); discriminate.
      * apply as_iter_Raise in Hiter. subst e. discriminate.
    + intros [nodes [Hiter Hall]]. rewrite Hiter. simpl.
      now rewrite (parse_loop_all_good [] Hall).
  - intros pre node post cvps Hiter Hpre. rewrite Hiter. simpl.
    rewrite (parse_loop_first_failure node post [] Hpre). split.
    + intros e Hnode. rewrite Hnode. reflexivity.
    + intros x Hnode. rewrite Hnode.
      apply parse_raise_classes in Hnode.
      destruct Hnode as [-> | ->]; reflexivity.
  - intros e Hiter. rewrite Hiter. apply as_iter_Raise in Hiter. subst e.
    reflexivity.
Qed.
End ParserFacts.

(** ** The classifier *)

Lemma has_opcode_true (op : ConditionOpcode) (cvp : ConditionVarPair) :
  has_opcode op cvp = true <-> opcode cvp = op.
Proof.
  unfold has_opcode. destruct (ConditionOpcode_eq_dec (opcode cvp) op);
    split; congruence.
Qed.

Lemma conditions_by_opcode_step_eq (d : ConditionsDict) (cvp : ConditionVarPair) :
  conditions_by_opcode_step d cvp = Return (classify_add d cvp).
Proof.
  unfold conditions_by_opcode_step, classify_add, cd_contains, cd_lookup,
    cd_get_default, cd_set, Dict.contains, Dict.lookup, Dict.get_default.
  destruct (Dict.get ConditionOpcode_eq_dec d (opcode cvp)) as [l|] eqn:Hget;
    simpl.
  - rewrite Hget. reflexivity.
  - rewrite get_set_same. simpl. now rewrite set_set.
Qed.

Lemma conditions_by_opcode_loop_eq (conditions : list ConditionVarPair) :
  forall d : ConditionsDict,
  conditions_by_opcode_loop conditions d
  = Return (fold_left classify_add conditions d).
Proof.
  induction conditions as [|cvp conditions IH]; intros d; simpl.
  - reflexivity.
  - rewrite conditions_by_opcode_step_eq. simpl. apply IH.
Qed.

Lemma conditions_by_opcode_eq (conditions : list ConditionVarPair) :
  conditions_by_opcode conditions
  = Return (fold_left classify_add conditions Dict.empty).
Proof. apply conditions_by_opcode_loop_eq. Qed.

Lemma get_default_classify_add (d : ConditionsDict) (cvp : ConditionVarPair)
  (op : ConditionOpcode) :
  cd_get_default (classify_add d cvp) op []
  = cd_get_default d op [] ++ (if has_opcode op cvp then [cvp] else []).
Proof.
  unfold classify_add, cd_get_default, cd_set, Dict.get_default, has_opcode.
  destruct (ConditionOpcode_eq_dec (opcode cvp) op) as [<-|Hne].
  - now rewrite get_set_same.
  - rewrite (get_set_other _ _ _ Hne). now rewrite app_nil_r.
Qed.

Lemma get_default_fold (conditions : list ConditionVarPair) :
  forall (d : ConditionsDict) (op : ConditionOpcode),
  cd_get_default (fold_left classify_add conditions d) op []
  = cd_get_default d op [] ++ filter (has_opcode op) conditions.
Proof.
  induction conditions as [|cvp conditions IH]; intros d op; simpl.
  - now rewrite app_nil_r.
  - rewrite IH, get_default_classify_add, <- app_assoc.
    destruct (has_opcode op cvp); reflexivity.
Qed.

Lemma cd_get_In (d : ConditionsDict) (op : ConditionOpcode)
  (l : list ConditionVarPair) :
  cd_get d op = Some l -> In (op, l) d.
Proof.
  unfold cd_get. induction d as [|[k v] d IH]; simpl; [discriminate|].
  destruct (ConditionOpcode_eq_dec op k) as [->|Hne]; intros H.
  - left. congruence.
  - right. auto.
Qed.

Lemma Forall_set (P : ConditionOpcode * list ConditionVarPair -> Prop)
  (d : ConditionsDict) (k : ConditionOpcode) (v : list ConditionVarPair) :
  Forall P d -> P (k, v) -> Forall P (cd_set d k v).
Proof.
  unfold cd_set. intros Hd Hkv. induction Hd as [|[k1 v1] d H1 Hd IH]; simpl.
  - constructor; [exact Hkv | constructor].
  - destruct (ConditionOpcode_eq_dec k k1) as [->|Hne];
      constructor; assumption.
Qed.

Lemma keys_set_present (d : ConditionsDict) (k : ConditionOpcode)
  (v : list ConditionVarPair) :
  cd_get d k <> None -> Dict.keys (cd_set d k v) = Dict.keys d.
Proof.
  unfold cd_get, cd_set. induction d as [|[k1 v1] d IH]; simpl; intros H.
  - congruence.
  - destruct (ConditionOpcode_eq_dec k k1) as [->|Hne]; simpl.
    + reflexivity.
    + now rewrite IH.
Qed.

Lemma grouped_classify_add (d : ConditionsDict) (cvp : ConditionVarPair) :
  grouped d -> grouped (classify_add d cvp).
Proof.
  intros [Hnd Hall]. unfold classify_add, cd_get_default, Dict.get_default.
  destruct (Dict.get ConditionOpcode_eq_dec d (opcode cvp)) as [l|] eqn:Hget.
  - split.
    + rewrite keys_set_present; [exact Hnd | unfold cd_get; congruence].
    + apply Forall_set; [exact Hall|].
      assert (Hl : group_ok (opcode cvp, l)).
      { rewrite Forall_forall in Hall. apply Hall. now apply cd_get_In. }
      destruct Hl as [_ Hl]. split; simpl.
      * destruct l; discriminate.
      * apply Forall_app. split; [exact Hl | now constructor].
  - split.
    + unfold cd_set. rewrite set_absent by exact Hget.
      unfold Dict.keys. rewrite map_app. simpl.
      apply NoDup_app; [exact Hnd | constructor; [intros [] | constructor] |].
      intros k Hin [<-|[]]. now apply get_None_keys in Hget.
    + apply Forall_set; [exact Hall|]. split; simpl.
      * discriminate.
      * now constructor.
Qed.

Lemma grouped_fold (conditions : list ConditionVarPair) :
  forall d : ConditionsDict,
  grouped d -> grouped (fold_left classify_add conditions d).
Proof.
  induction conditions as [|cvp conditions IH]; intros d Hd; simpl.
  - exact Hd.
  - apply IH. now apply grouped_classify_add.
Qed.

Lemma grouped_empty : grouped Dict.empty.
Proof. split; constructor. Qed.

(** Adding conditions of one opcode to a mapping whose last key is that
    opcode extends the last entry. *)
Lemma fold_same_opcode_last (g : list ConditionVarPair) :
  forall (d0 : ConditionsDict) (k : ConditionOpcode) (g0 : list ConditionVarPair),
  cd_get d0 k = None ->
  Forall (fun cvp => opcode cvp = k) g ->
  fold_left classify_add g (d0 ++ [(k, g0)]) = d0 ++ [(k, g0 ++ g)].
Proof.
  induction g as [|c g IH]; intros d0 k g0 Hget Hall; simpl.
  - now rewrite app_nil_r.
  - inversion Hall as [|c' g' Hc Hg]; subst.
    assert (Hadd : classify_add (d0 ++ [(opcode c, g0)]) c
                   = d0 ++ [(opcode c, g0 ++ [c])]).
    { unfold classify_add, cd_get_default, cd_set, Dict.get_default.
      rewrite (get_app_absent _ _ _ _ Hget). simpl.
      destruct (ConditionOpcode_eq_dec (opcode c) (opcode c)); [|congruence].
      now apply set_app_last. }
    rewrite Hadd, (IH d0 (opcode c) (g0 ++ [c]) Hget Hg).
    now rewrite <- app_assoc.
Qed.

(** A group whose key is new becomes the last entry. *)
Lemma fold_new_group (g : list ConditionVarPair) (d0 : ConditionsDict)
  (k : ConditionOpcode) :
  cd_get d0 k = None -> group_ok (k, g) ->
  fold_left classify_add g d0 = d0 ++ [(k, g)].
Proof.
  intros Hget [Hne Hall]. simpl in Hne, Hall.
  destruct g as [|c g]; [congruence|].
  inversion Hall as [|c' g' Hc Hg]; subst. simpl.
  assert (Hadd : classify_add d0 c = d0 ++ [(opcode c, [c])]).
  { unfold classify_add, cd_get_default, cd_set, Dict.get_default.
    unfold cd_get in Hget. rewrite Hget. simpl. now apply set_absent. }
  rewrite Hadd. now apply fold_same_opcode_last.
Qed.

(** Classifying the flattened list of a grouped mapping adds its entries, in
    order, after those already there. *)
Lemma fold_flatten (d : ConditionsDict) :
  forall d0 : ConditionsDict,
  NoDup (Dict.keys (d0 ++ d)) -> Forall group_ok d ->
  fold_left classify_add (flatten d) d0 = d0 ++ d.
Proof.
  induction d as [|[k g] d IH]; intros d0 Hnd Hall.
  - simpl. now rewrite app_nil_r.
  - inversion Hall as [|kv d' Hkg Hd]; subst.
    unfold flatten. simpl. rewrite fold_left_app.
    assert (Hget : cd_get d0 k = None).
    { apply get_None_keys. unfold Dict.keys in *. rewrite map_app in Hnd.
      simpl in Hnd. apply NoDup_remove_2 in Hnd.
      intros Hin. apply Hnd. apply in_or_app. now left. }
    rewrite (fold_new_group d0 Hget Hkg).
    change (concat (Dict.values d)) with (flatten d).
    rewrite IH; [now rewrite <- app_assoc | | exact Hd].
    now rewrite <- app_assoc.
Qed.

(** C7: [conditions_by_opcode] cannot fail; the list the mapping has for an
    opcode is the subsequence of the input with that opcode, in the original
    order; the keys are the opcodes that occur; every condition of the input
    is in the list of its opcode. *)
Theorem conditions_by_opcode_stable_grouping (conditions : list ConditionVarPair) :
  exists d : ConditionsDict,
    conditions_by_opcode conditions = Return d /\
    (forall op, cd_get_default d op [] = filter (has_opcode op) conditions) /\
    (forall op, cd_get d op = None <-> filter (has_opcode op) conditions = []) /\
    (forall cvp, In cvp conditions ->
       exists group, cd_get d (opcode cvp) = Some group /\ In cvp group).
Proof.
  exists (fold_left classify_add conditions Dict.empty).
  assert (Hfilter : forall op,
    cd_get_default (fold_left classify_add conditions Dict.empty) op []
    = filter (has_opcode op) conditions).
  { intros op. now rewrite get_default_fold. }
  assert (Hgrouped := grouped_fold conditions grouped_empty).
  assert (Hkeys : forall op,
    cd_get (fold_left classify_add conditions Dict.empty) op = None <->
    filter (has_opcode op) conditions = []).
  { intros op. rewrite <- Hfilter. unfold cd_get_default, Dict.get_default.
    fold (cd_get (fold_left classify_add conditions Dict.empty) op).
    destruct (cd_get (fold_left classify_add conditions Dict.empty) op)
      as [l|] eqn:Hget.
    - apply cd_get_In in Hget. destruct Hgrouped as [_ Hall].
      rewrite Forall_forall in Hall. destruct (Hall _ Hget) as [Hne _].
      simpl in Hne. split; [discriminate | intros; contradiction].
    - tauto. }
  split; [apply conditions_by_opcode_eq|].
  split; [exact Hfilter|]. split; [exact Hkeys|].
  intros cvp Hin.
  assert (Hmem : In cvp (filter (has_opcode (opcode cvp)) conditions)).
  { apply filter_In. split; [exact Hin | now apply has_opcode_true]. }
  rewrite <- Hfilter in Hmem. unfold cd_get_default, Dict.get_default in Hmem.
  fold (cd_get (fold_left classify_add conditions Dict.empty) (opcode cvp)) in Hmem.
  destruct (cd_get (fold_left classify_add conditions Dict.empty) (opcode cvp))
    as [l|]; [eauto | destruct Hmem].
Qed.

(** C8: classifying the flattened list of a classified mapping gives the
    same mapping: the same keys in the same order, each with the same list. *)
Theorem conditions_by_opcode_idempotent (conditions : list ConditionVarPair) :
  exists d : ConditionsDict,
    conditions_by_opcode conditions = Return d /\
    conditions_by_opcode (flatten d) = Return d.
Proof.
  exists (fold_left classify_add conditions Dict.empty).
  split; [apply conditions_by_opcode_eq|].
  rewrite conditions_by_opcode_eq.
  destruct (grouped_fold conditions grouped_empty) as [Hnd Hall].
  now rewrite (fold_flatten Dict.empty Hnd Hall).
Qed.

(** C6: a node whose first element is a byte string the opcode table does
    not have, and that has one or two arguments, all byte strings, parses to
    a ConditionVarPair with opcode UNKNOWN and those arguments; classifying
    a list that contains it puts it in the list under UNKNOWN. *)
Theorem unknown_opcode_parsed_and_classified
  (table : bytes -> option ConditionOpcode) (b : bytes) (args : list Program)
  (before after : list ConditionVarPair) :
  table b = None ->
  length args = 1 \/ length args = 2 ->
  forallb atomp args = true ->
  exists (cvp : ConditionVarPair) (d : ConditionsDict)
         (group : list ConditionVarPair),
    parse_sexp_to_condition table (List (Atom b) args) = Return (Good cvp) /\
    opcode cvp = UNKNOWN /\
    vars cvp = map as_python args /\
    conditions_by_opcode (before ++ cvp :: after) = Return d /\
    cd_get d UNKNOWN = Some group /\
    In cvp group.
Proof.
  intros Htable Hlen Hatoms.
  set (cvp := mkConditionVarPair UNKNOWN (map as_python args)).
  set (d := fold_left classify_add (before ++ cvp :: after) Dict.empty).
  assert (Hmem : In cvp (cd_get_default d UNKNOWN [])).
  { unfold d. rewrite get_default_fold. simpl. apply filter_In.
    split; [apply in_or_app; right; now left | reflexivity]. }
  unfold cd_get_default, Dict.get_default in Hmem. fold (cd_get d UNKNOWN) in Hmem.
  destruct (cd_get d UNKNOWN) as [group|] eqn:Hget; [|destruct Hmem].
  exists cvp, d, group.
  split; [|split; [reflexivity | split; [reflexivity | split;
    [apply conditions_by_opcode_eq | split; [exact Hget | exact Hmem]]]]].
  assert (Hcall : ConditionVarPair_call UNKNOWN (map as_python args)
                  = Return cvp).
  { unfold ConditionVarPair_call.
    now rewrite forallb_bytes_as_python, Hatoms. }
  destruct args as [|a1 [|a2 [|a3 rest]]]; simpl in Hlen;
    try (destruct Hlen; discriminate).
  - rewrite parse_two_elements, Htable. simpl in Hcall. now rewrite Hcall.
  - rewrite parse_three_elements, Htable. simpl in Hcall. now rewrite Hcall.
Qed.

(** ** The NPC aggregate *)

Lemma condition_dict_fold_other
  (pairs : list (ConditionOpcode * list ConditionVarPair)) :
  forall (d : ConditionsDict) (op : ConditionOpcode),
  ~ In op (map fst pairs) ->
  cd_get (fold_left (fun d ol => cd_set d (fst ol) (snd ol)) pairs d) op
  = cd_get d op.
Proof.
  induction pairs as [|[k l] pairs IH]; intros d op Hnot; simpl.
  - reflexivity.
  - simpl in Hnot. rewrite IH by tauto.
    unfold cd_get, cd_set. apply get_set_other. intros E. apply Hnot. now left.
Qed.

(** C10: when the raw conditions of an NPC hold several pairs with the same
    opcode, [condition_dict] maps the opcode to the list of the last such
    pair; a condition that only earlier pairs carry is not in that list. *)
Theorem condition_dict_last_pair_wins (npc : NamePuzzleCondition.NPC)
  (op : ConditionOpcode) (l : list ConditionVarPair)
  (pre post : list (ConditionOpcode * list ConditionVarPair)) :
  NamePuzzleCondition.conditions npc = pre ++ (op, l) :: post ->
  ~ In op (map fst post) ->
  cd_get (NamePuzzleCondition.condition_dict npc) op = Some l /\
  (forall (l0 : list ConditionVarPair) (cvp : ConditionVarPair),
     In (op, l0) pre -> In cvp l0 -> ~ In cvp l ->
     ~ In cvp (cd_get_default (NamePuzzleCondition.condition_dict npc) op [])).
Proof.
  intros Hconds Hlast.
  assert (Hget : cd_get (NamePuzzleCondition.condition_dict npc) op = Some l).
  { unfold NamePuzzleCondition.condition_dict. rewrite Hconds, fold_left_app.
    simpl. rewrite condition_dict_fold_other by exact Hlast.
    unfold cd_get, cd_set. apply get_set_same. }
  split; [exact Hget|].
  intros l0 cvp _ _ Hnot. unfold cd_get_default, Dict.get_default.
  unfold cd_get in Hget. now rewrite Hget.
Qed.

(** ** The projections *)

Lemma yields_iff {A B : Type} (body : A -> py B) (R : A -> B -> Prop) :
  (forall x y, body x = Return y <-> R x y) ->
  forall xs ys, yields body xs ys <-> Forall2 R xs ys.
Proof.
  intros Hbody xs ys. unfold yields. split; intros H;
    induction H; constructor; try assumption; now apply Hbody.
Qed.

Section SignatureFacts.
Variable G1Element : Type.
Variable from_bytes : PyVal -> py G1Element.

Lemma agg_sig_body_Return (cvp : ConditionVarPair) (pair : G1Element * PyVal) :
  agg_sig_body from_bytes cvp = Return pair <-> agg_sig_pair from_bytes cvp pair.
Proof.
  unfold agg_sig_body, agg_sig_pair, getitem. split.
  - intros H.
    destruct (nth_error (vars cvp) 1) as [m|]; [|discriminate].
    destruct (nth_error (vars cvp) 0) as [k|]; [|discriminate].
    simpl in H. destruct (from_bytes k) as [pk|e] eqn:Hk; [|discriminate].
    simpl in H. inversion H; subst. exists k, m. auto.
  - intros [k [m [H0 [H1 [Hk Hm]]]]]. rewrite H1, H0. simpl.
    rewrite Hk. simpl. destruct pair; simpl in *. now subst.
Qed.

Lemma agg_sig_me_body_Return (coin_name : bytes32) (cvp : ConditionVarPair)
  (pair : G1Element * PyVal) :
  agg_sig_me_body from_bytes coin_name cvp = Return pair
  <-> agg_sig_me_pair from_bytes coin_name cvp pair.
Proof.
  unfold agg_sig_me_body, agg_sig_me_pair, getitem. split.
  - intros H.
    destruct (nth_error (vars cvp) 0) as [k|]; [|discriminate].
    destruct (nth_error (vars cvp) 1) as [[m|items]|];
      simpl in H; destruct (from_bytes k) as [pk|e] eqn:Hk;
      simpl in H; try discriminate.
    inversion H; subst. exists k, m. auto.
  - intros [k [m [H0 [H1 [Hk Hm]]]]]. rewrite H0, H1. simpl.
    rewrite Hk. simpl. destruct pair; simpl in *. now subst.
Qed.

(** C4: the pairs of [pkm_pairs_for_conditions_dict] are, in order, one pair
    per condition under AGG_SIG (key decoded from argument 0, argument 1 as
    the message) followed, when a coin name is given, by one pair per
    condition under AGG_SIG_ME (key decoded from argument 0, argument 1
    followed by the coin name as the message); without a coin name the
    conditions under AGG_SIG_ME give no pair. *)
Theorem pkm_pairs_for_conditions_dict_pairs (conditions_dict : ConditionsDict)
  (coin_name : option bytes32) (pairs : list (G1Element * PyVal)) :
  pkm_pairs_for_conditions_dict from_bytes conditions_dict coin_name = Return pairs
  <->
  exists sig me : list (G1Element * PyVal),
    pairs = sig ++ me /\
    Forall2 (agg_sig_pair from_bytes)
      (cd_get_default conditions_dict AGG_SIG []) sig /\
    match coin_name with
    | Some name =>
        Forall2 (agg_sig_me_pair from_bytes name)
          (cd_get_default conditions_dict AGG_SIG_ME []) me
    | None => me = []
    end.
Proof.
  unfold pkm_pairs_for_conditions_dict. split.
  - intros H. apply bind_Return_inv in H. destruct H as [sig [Hsig H]].
    apply for_append_Return in Hsig.
    apply (yields_iff _ _ agg_sig_body_Return) in Hsig.
    destruct coin_name as [name|].
    + apply for_append_Return_inv in H. destruct H as [me [Hme ->]].
      apply (yields_iff _ _ (agg_sig_me_body_Return name)) in Hme.
      exists sig, me. auto.
    + inversion H; subst. exists pairs, []. now rewrite app_nil_r.
  - intros [sig [me [-> [Hsig Hme]]]].
    apply (yields_iff _ _ agg_sig_body_Return) in Hsig.
    rewrite (for_append_yields [] Hsig). simpl.
    destruct coin_name as [name|].
    + apply (yields_iff _ _ (agg_sig_me_body_Return name)) in Hme.
      now rewrite (for_append_yields sig Hme).
    + subst me. now rewrite app_nil_r.
Qed.
End SignatureFacts.

Lemma big_endian_nonneg (b : bytes) :
  forall acc : Z, (0 <= acc)%Z -> (0 <= big_endian b acc)%Z.
Proof.
  induction b as [|x b IH]; intros acc Hacc; simpl.
  - exact Hacc.
  - apply IH. lia.
Qed.

Lemma int_from_bytes_Return (blob : PyVal) (n : Z) :
  int_from_bytes blob = Return n <->
  exists b, blob = PyBytes b /\ negative_encoding b = false /\ n = big_endian b 0.
Proof.
  unfold int_from_bytes, negative_encoding. split.
  - intros H. destruct blob as [[|x b]|items]; try discriminate.
    + inversion H. exists []. auto.
    + destruct (128 <=? to_N x)%N eqn:Hx; [discriminate|].
      inversion H. exists (x :: b). auto.
  - intros [b [-> [Hneg ->]]]. destruct b as [|x b]; [reflexivity|].
    now rewrite Hneg.
Qed.

Lemma int_from_bytes_negative (b : bytes) :
  negative_encoding b = true -> int_from_bytes (PyBytes b) = Raise ValueError.
Proof.
  unfold int_from_bytes, negative_encoding. destruct b as [|x b]; intros H.
  - discriminate.
  - now rewrite H.
Qed.

Lemma created_output_body_Return (parent : bytes32) (cvp : ConditionVarPair)
  (coin : Coin) :
  created_output_body parent cvp = Return coin <-> created_coin parent cvp coin.
Proof.
  unfold created_output_body, created_coin, getitem. split.
  - intros H.
    destruct (nth_error (vars cvp) 0) as [ph|]; [|discriminate].
    destruct (nth_error (vars cvp) 1) as [ab|]; [|discriminate].
    simpl in H. destruct (int_from_bytes ab) as [n|e] eqn:Hn; [|discriminate].
    simpl in H. inversion H; subst.
    apply int_from_bytes_Return in Hn. destruct Hn as [b [-> [Hneg ->]]].
    exists ph, b. auto.
  - intros [ph [b [H0 [H1 [Hneg ->]]]]]. rewrite H0, H1. cbn [bind].
    assert (Hn : int_from_bytes (PyBytes b) = Return (big_endian b 0)).
    { apply int_from_bytes_Return. exists b. auto. }
    now rewrite Hn.
Qed.

(** C2: [created_outputs_for_conditions_dict] returns, in order, one coin
    per condition under CREATE_COIN: its parent is the spent coin's name, its
    puzzle hash is argument 0, its amount is argument 1 read as a big-endian
    integer, which is never negative; the encoding 0x00 is amount 0. When a
    condition under CREATE_COIN has an amount whose encoding is the one of a
    negative value, the call raises an error and returns no coins. *)
Theorem created_outputs_for_conditions_dict_amounts
  (conditions_dict : ConditionsDict) (input_coin_name : bytes32) :
  (forall coins : list Coin,
     created_outputs_for_conditions_dict conditions_dict input_coin_name
     = Return coins
     <-> Forall2 (created_coin input_coin_name)
           (cd_get_default conditions_dict CREATE_COIN []) coins) /\
  (forall (cvp : ConditionVarPair) (coin : Coin),
     created_coin input_coin_name cvp coin -> (0 <= amount coin)%Z) /\
  int_from_bytes (PyBytes [x00]) = Return 0%Z /\
  (forall (cvp : ConditionVarPair) (ph : PyVal) (amount_bin : bytes),
     In cvp (cd_get_default conditions_dict CREATE_COIN []) ->
     nth_error (vars cvp) 0 = Some ph ->
     nth_error (vars cvp) 1 = Some (PyBytes amount_bin) ->
     negative_encoding amount_bin = true ->
     exists e : exn,
       created_outputs_for_conditions_dict conditions_dict input_coin_name
       = Raise e).
Proof.
  unfold created_outputs_for_conditions_dict.
  split; [|split; [|split; [reflexivity|]]].
  - intros coins. rewrite for_append_Return.
    apply yields_iff. apply created_output_body_Return.
  - intros cvp coin [ph [b [_ [_ [_ ->]]]]]. simpl.
    apply big_endian_nonneg. lia.
  - intros cvp ph b Hin H0 H1 Hneg.
    assert (Hbody : created_output_body input_coin_name cvp = Raise ValueError).
    { unfold created_output_body, getitem. rewrite H0, H1. cbn [bind].
      now rewrite (int_from_bytes_negative _ Hneg). }
    destruct (for_append (created_output_body input_coin_name)
                (cd_get_default conditions_dict CREATE_COIN []) [])
      as [coins|e] eqn:Hrun.
    + exfalso. revert Hrun. eapply for_append_Raise_In; eassumption.
    + now exists e.
Qed.

Section AnnouncementFacts.
Variable Coin_name : Coin -> py bytes32.
Variable Announcement_name : Announcement -> py bytes32.

Lemma coin_announcement_body_Return (input_coin : Coin) (cvp : ConditionVarPair)
  (an : Announcement) :
  coin_announcement_body Coin_name input_coin cvp = Return an
  <-> coin_announcement Coin_name input_coin cvp an.
Proof.
  unfold coin_announcement_body, coin_announcement, getitem. split.
  - intros H. destruct (nth_error (vars cvp) 0) as [msg|]; [|discriminate].
    simpl in H. destruct (Coin_name input_coin) as [name|e]; [|discriminate].
    simpl in H. inversion H. exists msg, name. auto.
  - intros [msg [name [H0 [Hname ->]]]]. rewrite H0. simpl.
    now rewrite Hname.
Qed.

Lemma puzzle_announcement_body_Return (input_coin : Coin)
  (cvp : ConditionVarPair) (an : Announcement) :
  puzzle_announcement_body input_coin cvp = Return an
  <-> puzzle_announcement input_coin cvp an.
Proof.
  unfold puzzle_announcement_body, puzzle_announcement, getitem. split.
  - intros H. destruct (nth_error (vars cvp) 0) as [msg|]; [|discriminate].
    simpl in H. inversion H. exists msg. auto.
  - intros [msg [H0 ->]]. now rewrite H0.
Qed.

(** C9: the coin-scoped projection returns, in order, one Announcement per
    condition under CREATE_ANNOUNCEMENT_WITH_ID, with the spending coin's
    name as scope and argument 0 as message; the puzzle-scoped projection
    returns one per condition under CREATE_ANNOUNCEMENT_WITH_PUZZLEHASH,
    with the coin's puzzle hash as scope; the name variants return the
    [name()] of those announcements, in the same order. *)
Theorem announcements_for_conditions_dict_scopes
  (conditions_dict : ConditionsDict) (input_coin : Coin) :
  (forall ans : list Announcement,
     coin_announcements_for_conditions_dict Coin_name conditions_dict input_coin
     = Return ans
     <-> Forall2 (coin_announcement Coin_name input_coin)
           (cd_get_default conditions_dict CREATE_ANNOUNCEMENT_WITH_ID []) ans) /\
  (forall ans : list Announcement,
     puzzle_announcements_for_conditions_dict conditions_dict input_coin
     = Return ans
     <-> Forall2 (puzzle_announcement input_coin)
           (cd_get_default conditions_dict CREATE_ANNOUNCEMENT_WITH_PUZZLEHASH [])
           ans) /\
  (forall names : list bytes32,
     coin_announcement_names_for_conditions_dict Coin_name Announcement_name
       conditions_dict input_coin = Return names
     <-> exists ans,
           coin_announcements_for_conditions_dict Coin_name conditions_dict
             input_coin = Return ans /\
           Forall2 (fun an name => Announcement_name an = Return name) ans names) /\
  (forall names : list bytes32,
     puzzle_announcement_names_for_conditions_dict Announcement_name
       conditions_dict input_coin = Return names
     <-> exists ans,
           puzzle_announcements_for_conditions_dict conditions_dict input_coin
           = Return ans /\
           Forall2 (fun an name => Announcement_name an = Return name) ans names).
Proof.
  split; [|split; [|split]].
  - intros ans. unfold coin_announcements_for_conditions_dict.
    rewrite for_append_Return. apply yields_iff.
    apply coin_announcement_body_Return.
  - intros ans. unfold puzzle_announcements_for_conditions_dict.
    rewrite for_append_Return. apply yields_iff.
    apply puzzle_announcement_body_Return.
  - intros names. unfold coin_announcement_names_for_conditions_dict, names_of.
    split.
    + intros H. apply bind_Return_inv in H. destruct H as [ans [Hans H]].
      apply for_append_Return in H. now exists ans.
    + intros [ans [-> H]]. simpl. now apply for_append_Return.
  - intros names. unfold puzzle_announcement_names_for_conditions_dict, names_of.
    split.
    + intros H. apply bind_Return_inv in H. destruct H as [ans [Hans H]].
      apply for_append_Return in H. now exists ans.
    + intros [ans [-> H]]. simpl. now apply for_append_Return.
Qed.
End AnnouncementFacts.

(** ** The orchestrator *)

Section OrchestratorFacts.
Variable table : bytes -> option ConditionOpcode.
Variable run : Program -> Program -> py (Z * Program).

Lemma conditions_for_solution_run_fails (puzzle_reveal solution : Program) :
  run puzzle_reveal solution = Raise EvalError ->
  conditions_for_solution table run puzzle_reveal solution
  = Return (Some SEXP_ERROR, None, uint64 0).
Proof.
  intros Hrun. unfold conditions_for_solution. rewrite Hrun. reflexivity.
Qed.

Lemma conditions_for_solution_parse_rejects (puzzle_reveal solution : Program)
  (cost : Z) (r : Program) (e : Err) :
  run puzzle_reveal solution = Return (cost, r) ->
  parse_sexp_to_conditions table r = Return (Bad e) ->
  conditions_for_solution table run puzzle_reveal solution
  = Return (Some e, None, uint64 cost).
Proof.
  intros Hrun Hparse. unfold conditions_for_solution. rewrite Hrun. simpl.
  rewrite Hparse. reflexivity.
Qed.

Lemma conditions_dict_for_solution_error (puzzle_reveal solution : Program)
  (e : Err) (result : option ConditionsDict) (cost : Z) :
  conditions_dict_for_solution table run puzzle_reveal solution
  = Return (Some e, result, cost) ->
  result = None /\ cost = uint64 0.
Proof.
  unfold conditions_dict_for_solution. intros H.
  apply bind_Return_inv in H. destruct H as [[[error res] c] [_ H]].
  destruct error as [e'|].
  - inversion H. auto.
  - destruct res as [l|].
    + apply bind_Return_inv in H. destruct H as [d [_ H]]. discriminate.
    + discriminate.
Qed.

(** C3 (amended): when the interpreter raises its evaluation error, both
    functions return SEXP_ERROR with cost 0. When the interpreter succeeds
    and the parser rejects its output, [conditions_for_solution] returns the
    parse error with the cost the interpreter reported, and
    [conditions_dict_for_solution] returns the parse error with cost 0.
    Every error [conditions_dict_for_solution] returns comes with no mapping
    and cost 0. *)
Theorem orchestrator_error_costs (puzzle_reveal solution : Program) :
  (run puzzle_reveal solution = Raise EvalError ->
   conditions_for_solution table run puzzle_reveal solution
   = Return (Some SEXP_ERROR, None, uint64 0) /\
   conditions_dict_for_solution table run puzzle_reveal solution
   = Return (Some SEXP_ERROR, None, uint64 0)) /\
  (forall (cost : Z) (r : Program) (e : Err),
     run puzzle_reveal solution = Return (cost, r) ->
     parse_sexp_to_conditions table r = Return (Bad e) ->
     conditions_for_solution table run puzzle_reveal solution
     = Return (Some e, None, uint64 cost) /\
     conditions_dict_for_solution table run puzzle_reveal solution
     = Return (Some e, None, uint64 0)) /\
  (forall (e : Err) (result : option ConditionsDict) (cost : Z),
     conditions_dict_for_solution table run puzzle_reveal solution
     = Return (Some e, result, cost) ->
     result = None /\ cost = uint64 0).
Proof.
  split; [|split].
  - intros Hrun. split.
    + now apply conditions_for_solution_run_fails.
    + unfold conditions_dict_for_solution.
      now rewrite conditions_for_solution_run_fails.
  - intros cost r e Hrun Hparse. split.
    + exact (conditions_for_solution_parse_rejects Hrun Hparse).
    + unfold conditions_dict_for_solution.
      now rewrite (conditions_for_solution_parse_rejects Hrun Hparse).
  - apply conditions_dict_for_solution_error.
Qed.
End OrchestratorFacts.

(** ** The model at work *)

Example classify_sample :
  conditions_by_opcode
    [ mkConditionVarPair AGG_SIG [PyBytes [x0a]; PyBytes [x0b]];
      mkConditionVarPair CREATE_COIN [PyBytes [xaa]; PyBytes [x01]];
      mkConditionVarPair AGG_SIG [PyBytes [x0c]; PyBytes [x0d]] ]
  = Return
      [ (AGG_SIG, [ mkConditionVarPair AGG_SIG [PyBytes [x0a]; PyBytes [x0b]];
                    mkConditionVarPair AGG_SIG [PyBytes [x0c]; PyBytes [x0d]] ]);
        (CREATE_COIN,
          [ mkConditionVarPair CREATE_COIN [PyBytes [xaa]; PyBytes [x01]] ]) ].
Proof. reflexivity. Qed.

Example flatten_sample :
  flatten
    [ (AGG_SIG, [ mkConditionVarPair AGG_SIG [PyBytes [x0a]; PyBytes [x0b]];
                  mkConditionVarPair AGG_SIG [PyBytes [x0c]; PyBytes [x0d]] ]);
      (CREATE_COIN,
        [ mkConditionVarPair CREATE_COIN [PyBytes [xaa]; PyBytes [x01]] ]) ]
  = [ mkConditionVarPair AGG_SIG [PyBytes [x0a]; PyBytes [x0b]];
      mkConditionVarPair AGG_SIG [PyBytes [x0c]; PyBytes [x0d]];
      mkConditionVarPair CREATE_COIN [PyBytes [xaa]; PyBytes [x01]] ].
Proof. reflexivity. Qed.

(** A puzzle whose output is [((51 0xaa 100))], spent from the coin 0x50,
    creates the one coin with parent 0x50, puzzle hash 0xaa and amount 100. *)
Example end_to_end_created_coin :
  (erc <- conditions_dict_for_solution sample_table create_coin_run
            (Atom []) (Atom []) ;;
   match erc with
   | (None, Some d, _) => created_outputs_for_conditions_dict d [x50]
   | _ => Return []
   end)
  = Return [mkCoin [x50] (PyBytes [xaa]) 100].
Proof. reflexivity. Qed.

(** A puzzle whose output is [((60 0x6d))] creates one coin announcement,
    whose name is the name of (coin name, 0x6d). *)
Example end_to_end_announcement :
  (erc <- conditions_dict_for_solution sample_table announcement_run
            (Atom []) (Atom []) ;;
   match erc with
   | (None, Some d, _) =>
       coin_announcement_names_for_conditions_dict sample_Coin_name
         sample_Announcement_name d sample_coin
   | _ => Return []
   end)
  = Return [[x50; xbb; x6d]].
Proof. reflexivity. Qed.

Example int_from_bytes_samples :
  int_from_bytes (PyBytes []) = Return 0%Z /\
  int_from_bytes (PyBytes [x00]) = Return 0%Z /\
  int_from_bytes (PyBytes [x00; xff]) = Return 255%Z /\
  int_from_bytes (PyBytes [x01; x00]) = Return 256%Z /\
  int_from_bytes (PyBytes [xff]) = Raise ValueError /\
  int_from_bytes (PyBytes [x80; x00]) = Raise ValueError.
Proof. repeat split; reflexivity. Qed.

(** ** The statements on concrete inputs *)

(** C1, counterexample: the node [(51 0xaa 0x64 0x01)] has four elements and
    parses to a CREATE_COIN condition with the single argument 0xaa; it does
    not fail with INVALID_CONDITION. *)
Lemma four_element_node_parses :
  length (elements four_element_node) = 4 /\
  parse_sexp_to_condition sample_table four_element_node
  = Return (Good (mkConditionVarPair CREATE_COIN [PyBytes [xaa]])).
Proof. split; reflexivity. Qed.

(** The node [(51)], with the opcode alone, raises [IndexError]: it neither
    parses nor fails with INVALID_CONDITION. *)
Lemma one_element_node_raises :
  parse_sexp_to_condition sample_table one_element_node = Raise IndexError.
Proof. reflexivity. Qed.

(** C3, counterexample: the interpreter succeeds with cost 7, the parser
    rejects its output, and [conditions_for_solution] returns the parse
    error with cost 7. *)
Lemma parse_rejection_keeps_interpreter_cost :
  costly_run (Atom []) (Atom []) = Return (7%Z, rejected_output) /\
  parse_sexp_to_conditions sample_table rejected_output
  = Return (Bad INVALID_CONDITION) /\
  conditions_for_solution sample_table costly_run (Atom []) (Atom [])
  = Return (Some INVALID_CONDITION, None, 7%Z).
Proof. repeat split; reflexivity. Qed.

(** C3 at concrete interpreters. *)
Lemma orchestrator_error_costs_witness :
  (conditions_for_solution sample_table failing_run (Atom []) (Atom [])
   = Return (Some SEXP_ERROR, None, uint64 0) /\
   conditions_dict_for_solution sample_table failing_run (Atom []) (Atom [])
   = Return (Some SEXP_ERROR, None, uint64 0)) /\
  (conditions_for_solution sample_table costly_run (Atom []) (Atom [])
   = Return (Some INVALID_CONDITION, None, uint64 7) /\
   conditions_dict_for_solution sample_table costly_run (Atom []) (Atom [])
   = Return (Some INVALID_CONDITION, None, uint64 0)).
Proof.
  split.
  - apply (orchestrator_error_costs sample_table failing_run (Atom []) (Atom [])).
    reflexivity.
  - apply (proj1 (proj2 (orchestrator_error_costs sample_table costly_run
                           (Atom []) (Atom [])))
             7%Z rejected_output INVALID_CONDITION);
      reflexivity.
Defined.

(** C5 at concrete outputs: the second element of [partly_valid_output]
    fails and so does the call; a non-empty atom cannot be iterated. *)
Lemma parse_sexp_to_conditions_first_failure_witness :
  parse_sexp_to_conditions sample_table partly_valid_output
  = Return (Bad INVALID_CONDITION) /\
  parse_sexp_to_conditions sample_table (Atom [x01])
  = Return (Bad INVALID_CONDITION) /\
  parse_sexp_to_conditions sample_table (List unknown_opcode_node [])
  = Return (Good [mkConditionVarPair UNKNOWN [PyBytes [x01]]]).
Proof.
  split; [|split].
  - destruct (parse_sexp_to_conditions_first_failure sample_table
                partly_valid_output) as [_ [Hfirst _]].
    apply (Hfirst [unknown_opcode_node] (Atom [x01]) []
             [mkConditionVarPair UNKNOWN [PyBytes [x01]]]).
    + reflexivity.
    + constructor; [reflexivity | constructor].
    + reflexivity.
  - destruct (parse_sexp_to_conditions_first_failure sample_table
                (Atom [x01])) as [_ [_ Hiter]].
    apply (Hiter ConsensusError). reflexivity.
  - destruct (parse_sexp_to_conditions_first_failure sample_table
                (List unknown_opcode_node [])) as [Hgood _].
    apply Hgood. exists [unknown_opcode_node]. split; [reflexivity|].
    constructor; [reflexivity | constructor].
Defined.

(** C6 at the node [(0x63 0x01)] and the sample table. *)
Lemma unknown_opcode_parsed_and_classified_witness :
  sample_table [x63] = None /\
  (length [Atom [x01]] = 1 \/ length [Atom [x01]] = 2) /\
  forallb atomp [Atom [x01]] = true /\
  exists (cvp : ConditionVarPair) (d : ConditionsDict)
         (group : list ConditionVarPair),
    parse_sexp_to_condition sample_table (List (Atom [x63]) [Atom [x01]])
    = Return (Good cvp) /\
    opcode cvp = UNKNOWN /\
    vars cvp = map as_python [Atom [x01]] /\
    conditions_by_opcode ([] ++ cvp :: []) = Return d /\
    cd_get d UNKNOWN = Some group /\
    In cvp group.
Proof.
  split; [reflexivity|]. split; [left; reflexivity|]. split; [reflexivity|].
  apply (unknown_opcode_parsed_and_classified sample_table [x63] [Atom [x01]]
           [] []).
  - reflexivity.
  - left. reflexivity.
  - reflexivity.
Defined.

(** C10 at an NPC with two AGG_SIG pairs: the mapping has the conditions of
    the second pair, and the condition of the first pair is not there. *)
Lemma condition_dict_last_pair_wins_witness :
  cd_get (NamePuzzleCondition.condition_dict repeated_opcode_npc) AGG_SIG
  = Some [mkConditionVarPair AGG_SIG [PyBytes [x0c]; PyBytes [x0d]]] /\
  ~ In (mkConditionVarPair AGG_SIG [PyBytes [x0a]; PyBytes [x0b]])
       (cd_get_default (NamePuzzleCondition.condition_dict repeated_opcode_npc)
          AGG_SIG []).
Proof.
  destruct (@condition_dict_last_pair_wins repeated_opcode_npc AGG_SIG
              [mkConditionVarPair AGG_SIG [PyBytes [x0c]; PyBytes [x0d]]]
              [ (AGG_SIG, [mkConditionVarPair AGG_SIG [PyBytes [x0a]; PyBytes [x0b]]]);
                (CREATE_COIN,
                  [mkConditionVarPair CREATE_COIN [PyBytes [xaa]; PyBytes [x01]]]) ]
              []
              eq_refl
              (fun H : In AGG_SIG (map fst []) => H))
    as [Hget Hearlier].
  split; [exact Hget|].
  apply (Hearlier [mkConditionVarPair AGG_SIG [PyBytes [x0a]; PyBytes [x0b]]]).
  - left. reflexivity.
  - left. reflexivity.
  - intros [H|[]]. discriminate H.
Defined.

(** C2 at the sample mapping: the amount 0x0100 is 256; the amount 0xff is
    rejected. *)
Lemma created_outputs_for_conditions_dict_amounts_witness :
  created_outputs_for_conditions_dict sample_dict [x50]
  = Return [mkCoin [x50] (PyBytes [xaa]) 256] /\
  exists e : exn,
    created_outputs_for_conditions_dict negative_amount_dict [x50] = Raise e.
Proof.
  split.
  - apply (proj1 (created_outputs_for_conditions_dict_amounts sample_dict [x50])).
    constructor; [|constructor].
    exists (PyBytes [xaa]), [x01; x00]. repeat split; reflexivity.
  - apply (proj2 (proj2 (proj2
             (created_outputs_for_conditions_dict_amounts
                negative_amount_dict [x50])))
             (mkConditionVarPair CREATE_COIN [PyBytes [xaa]; PyBytes [xff]])
             (PyBytes [xaa]) [xff]).
    + left. reflexivity.
    + reflexivity.
    + reflexivity.
    + reflexivity.
Defined.

(** C4 at the sample mapping, with and without a coin name. *)
Lemma pkm_pairs_for_conditions_dict_pairs_witness :
  pkm_pairs_for_conditions_dict sample_from_bytes sample_dict (Some [x50])
  = Return [([x0a], PyBytes [x0b]); ([x0c], PyBytes [x0d; x50])] /\
  pkm_pairs_for_conditions_dict sample_from_bytes sample_dict None
  = Return [([x0a], PyBytes [x0b])].
Proof.
  split.
  - apply (proj2 (pkm_pairs_for_conditions_dict_pairs sample_from_bytes
                    sample_dict (Some [x50]) _)).
    exists [([x0a], PyBytes [x0b])], [([x0c], PyBytes [x0d; x50])].
    split; [reflexivity|]. split.
    + constructor; [|constructor].
      exists (PyBytes [x0a]), (PyBytes [x0b]). repeat split; reflexivity.
    + constructor; [|constructor].
      exists (PyBytes [x0c]), [x0d]. repeat split; reflexivity.
  - apply (proj2 (pkm_pairs_for_conditions_dict_pairs sample_from_bytes
                    sample_dict None _)).
    exists [([x0a], PyBytes [x0b])], [].
    split; [reflexivity|]. split; [|reflexivity].
    constructor; [|constructor].
    exists (PyBytes [x0a]), (PyBytes [x0b]). repeat split; reflexivity.
Defined.

(** C9 at the sample mapping and coin. *)
Lemma announcements_for_conditions_dict_scopes_witness :
  coin_announcements_for_conditions_dict sample_Coin_name sample_dict sample_coin
  = Return [mkAnnouncement (PyBytes [x50; xbb]) (PyBytes [x6d])] /\
  puzzle_announcements_for_conditions_dict sample_dict sample_coin
  = Return [mkAnnouncement (PyBytes [xbb]) (PyBytes [x6e])] /\
  coin_announcement_names_for_conditions_dict sample_Coin_name
    sample_Announcement_name sample_dict sample_coin
  = Return [[x50; xbb; x6d]].
Proof.
  destruct (announcements_for_conditions_dict_scopes sample_Coin_name
              sample_Announcement_name sample_dict sample_coin)
    as [Hcoin [Hpuzzle [Hnames _]]].
  assert (Hans : coin_announcements_for_conditions_dict sample_Coin_name
                   sample_dict sample_coin
                 = Return [mkAnnouncement (PyBytes [x50; xbb]) (PyBytes [x6d])]).
  { apply Hcoin. constructor; [|constructor].
    exists (PyBytes [x6d]), [x50; xbb]. repeat split; reflexivity. }
  split; [exact Hans|]. split.
  - apply Hpuzzle. constructor; [|constructor].
    exists (PyBytes [x6e]). split; reflexivity.
  - apply Hnames. exists [mkAnnouncement (PyBytes [x50; xbb]) (PyBytes [x6d])].
    split; [exact Hans|]. constructor; [reflexivity | constructor].
Defined.

(** * Further properties of the code *)

(** ** The parser: failure modes and the shape of its results *)

Section ParserShapes.
Variable table : bytes -> option ConditionOpcode.

(** The node behind a returned condition, and the arguments it gives. *)
Lemma parse_good_inv (node : Program) (cvp : ConditionVarPair) :
  parse_sexp_to_condition table node = Return (Good cvp) ->
  exists (b : bytes) (a1 : Program) (rest : list Program),
    node = List (Atom b) (a1 :: rest) /\
    opcode cvp = match table b with Some o => o | None => UNKNOWN end /\
    vars cvp = match rest with
               | [a2] => [as_python a1; as_python a2]
               | _ => [as_python a1]
               end.
Proof.
  intros H. destruct node as [a|[b|f r] rest].
  - rewrite parse_atom in H. discriminate.
  - destruct rest as [|a1 [|a2 [|a3 rest]]].
    + rewrite parse_one_element in H. discriminate.
    + rewrite parse_two_elements in H.
      apply construct_Good_inv in H. destruct H as [-> _].
      exists b, a1, []. auto.
    + rewrite parse_three_elements in H.
      apply construct_Good_inv in H. destruct H as [-> _].
      exists b, a1, [a2]. auto.
    + rewrite parse_more_elements in H.
      apply construct_Good_inv in H. destruct H as [-> _].
      exists b, a1, (a2 :: a3 :: rest). auto.
  - rewrite parse_first_not_bytes in H. discriminate.
Qed.

Lemma parse_good_one_or_two (node : Program) (cvp : ConditionVarPair) :
  parse_sexp_to_condition table node = Return (Good cvp) ->
  length (vars cvp) = 1 \/ length (vars cvp) = 2.
Proof.
  intros H. apply parse_good_inv in H.
  destruct H as [b [a1 [rest [_ [_ ->]]]]].
  destruct rest as [|a2 [|a3 rest]]; simpl; auto.
Qed.

Lemma parse_bad_inv (node : Program) (e : Err) :
  parse_sexp_to_condition table node = Return (Bad e) ->
  e = INVALID_CONDITION /\
  (listp node = false \/
   exists (f : Program) (r rest : list Program), node = List (List f r) rest).
Proof.
  intros H. destruct node as [a|[b|f r] rest].
  - rewrite parse_atom in H. inversion H. auto.
  - exfalso. destruct rest as [|a1 [|a2 [|a3 rest]]].
    + rewrite parse_one_element in H. discriminate.
    + rewrite parse_two_elements in H. exact (construct_not_Bad _ _ H).
    + rewrite parse_three_elements in H. exact (construct_not_Bad _ _ H).
    + rewrite parse_more_elements in H. exact (construct_not_Bad _ _ H).
  - rewrite parse_first_not_bytes in H. inversion H.
    split; [reflexivity|]. right. now exists f, r, rest.
Qed.

Lemma parse_bad_invalid_condition (node : Program) (e : Err) :
  parse_sexp_to_condition table node = Return (Bad e) -> e = INVALID_CONDITION.
Proof. intros H. exact (proj1 (parse_bad_inv _ H)). Qed.

(** On a node whose arguments are byte strings the parser raises on the
    opcode alone, and nowhere else. *)
Lemma parse_raise_inv (node : Program) (x : exn) :
  byte_string_arguments node = true ->
  parse_sexp_to_condition table node = Raise x ->
  x = IndexError /\ exists b : bytes, node = List (Atom b) [].
Proof.
  unfold byte_string_arguments. intros Hargs H.
  destruct node as [a|[b|f r] rest].
  - rewrite parse_atom in H. discriminate.
  - simpl in Hargs. destruct rest as [|a1 [|a2 [|a3 rest]]].
    + rewrite parse_one_element in H. inversion H.
      split; [reflexivity | now exists b].
    + exfalso. rewrite parse_two_elements in H.
      apply construct_Raise_inv in H. destruct H as [_ H].
      simpl in H, Hargs. rewrite !isinstance_bytes_as_python in H.
      congruence.
    + exfalso. rewrite parse_three_elements in H.
      apply construct_Raise_inv in H. destruct H as [_ H].
      simpl in H, Hargs. rewrite !isinstance_bytes_as_python in H.
      congruence.
    + exfalso. rewrite parse_more_elements in H.
      apply construct_Raise_inv in H. destruct H as [_ H].
      simpl in H, Hargs. rewrite !isinstance_bytes_as_python in H.
      apply andb_true_iff in Hargs.
      destruct Hargs as [Ha1 _]. rewrite Ha1 in H. discriminate.
  - rewrite parse_first_not_bytes in H. discriminate.
Qed.

(** X1: on a node whose arguments are byte strings,
    [parse_sexp_to_condition] raises exactly when the node is a list that
    holds a byte string and nothing else, and the exception is [IndexError]
    (from [items[1]]); every other such node gives a returned value. *)
Theorem parse_sexp_to_condition_raises_iff (node : Program) (x : exn) :
  byte_string_arguments node = true ->
  (parse_sexp_to_condition table node = Raise x <->
   x = IndexError /\ exists b : bytes, node = List (Atom b) []).
Proof.
  intros Hargs. split.
  - exact (parse_raise_inv _ Hargs).
  - intros [-> [b ->]]. apply parse_one_element.
Qed.

(** X2: a condition the parser returns has one or two arguments: two when
    the node has exactly three elements, one when it has two elements or
    more than three. *)
Theorem parse_sexp_to_condition_argument_count (node : Program)
  (cvp : ConditionVarPair) :
  parse_sexp_to_condition table node = Return (Good cvp) ->
  (length (elements node) = 3 /\ length (vars cvp) = 2) \/
  (length (elements node) <> 3 /\ 2 <= length (elements node) /\
   length (vars cvp) = 1).
Proof.
  intros H. apply parse_good_inv in H.
  destruct H as [b [a1 [rest [-> [_ ->]]]]].
  destruct rest as [|a2 [|a3 rest]]; simpl.
  - right. repeat split; [discriminate | lia].
  - left. split; reflexivity.
  - right. repeat split; [discriminate | lia].
Qed.

(** X3: the parser returns an error exactly when the node is an atom or its
    first element is a list, whatever the number of elements, and the error
    is always INVALID_CONDITION. *)
Theorem parse_sexp_to_condition_rejects_iff (node : Program) (e : Err) :
  parse_sexp_to_condition table node = Return (Bad e) <->
  e = INVALID_CONDITION /\
  (listp node = false \/
   exists (f : Program) (r rest : list Program), node = List (List f r) rest).
Proof.
  split.
  - apply parse_bad_inv.
  - intros [-> [Hatom | [f [r [rest ->]]]]].
    + destruct node; [apply parse_atom | discriminate].
    + apply parse_first_not_bytes.
Qed.

(** The conditions of a parsed list keep the argument count. *)
Lemma parsed_list_argument_counts (nodes : list Program)
  (cvps : list ConditionVarPair) :
  Forall2 (fun n c => parse_sexp_to_condition table n = Return (Good c))
    nodes cvps ->
  Forall (fun c => length (vars c) = 1 \/ length (vars c) = 2) cvps.
Proof.
  intros H. induction H as [|n c nodes cvps Hn _ IH]; constructor; [|exact IH].
  exact (parse_good_one_or_two _ Hn).
Qed.

Lemma as_iter_elements (sexp : Program) (nodes : list Program) :
  as_iter sexp = Return nodes -> nodes = elements sexp.
Proof.
  destruct sexp as [[|x a]|f rest]; simpl; intros H;
    try discriminate; now inversion H.
Qed.

Lemma parse_conditions_Good_inv (sexp : Program) (cvps : list ConditionVarPair) :
  parse_sexp_to_conditions table sexp = Return (Good cvps) ->
  Forall2 (fun n c => parse_sexp_to_condition table n = Return (Good c))
    (elements sexp) cvps.
Proof.
  unfold parse_sexp_to_conditions. intros H.
  destruct (as_iter sexp) as [nodes|e] eqn:Hiter; simpl in H.
  - apply as_iter_elements in Hiter. subst nodes.
    destruct (parse_loop table (elements sexp) []) as [[out|e]|x] eqn:Hloop;
      simpl in H.
    + inversion H; subst. apply parse_loop_Good_inv in Hloop.
      destruct Hloop as [cs [Hcs ->]]. exact Hcs.
    + discriminate.
    + destruct (exn_eq_dec x ConsensusError); discriminate.
  - apply as_iter_Raise in Hiter. subst e. discriminate.
Qed.

(** X4: a parsed list has one condition per element of the output, and each
    of them has one or two arguments. *)
Theorem parse_sexp_to_conditions_one_per_element (sexp : Program)
  (cvps : list ConditionVarPair) :
  parse_sexp_to_conditions table sexp = Return (Good cvps) ->
  length cvps = length (elements sexp) /\
  Forall (fun c => length (vars c) = 1 \/ length (vars c) = 2) cvps.
Proof.
  intros H. apply parse_conditions_Good_inv in H. split.
  - symmetry. exact (Forall2_length H).
  - exact (parsed_list_argument_counts H).
Qed.

(** Where the loop of the list parser stops when it does not reach the end. *)
Lemma parse_loop_stops (nodes : list Program) :
  forall results : list ConditionVarPair,
  (exists out, parse_loop table nodes results = Return (Good out)) \/
  (exists pre node post cvps,
     nodes = pre ++ node :: post /\
     Forall2 (fun n c => parse_sexp_to_condition table n = Return (Good c))
       pre cvps /\
     (forall c, parse_sexp_to_condition table node <> Return (Good c)) /\
     parse_loop table nodes results
     = match parse_sexp_to_condition table node with
       | Return (Bad e) => Return (Bad e)
       | Return (Good c) => Return (Good [c])
       | Raise x => Raise x
       end).
Proof.
  induction nodes as [|n nodes IH]; intros results.
  - left. now exists results.
  - simpl. destruct (parse_sexp_to_condition table n) as [[c|e]|x] eqn:Hn.
    + simpl. destruct (IH (results ++ [c])) as [[out Hout] | Hstop].
      * left. now exists out.
      * right. destruct Hstop as [pre [node [post [cvps [-> [Hpre [Hbad Hrun]]]]]]].
        exists (n :: pre), node, post, (c :: cvps).
        split; [reflexivity|]. split; [now constructor|]. split; [exact Hbad|].
        exact Hrun.
    + right. exists [], n, nodes, []. rewrite Hn.
      split; [reflexivity|]. split; [constructor|]. split; [discriminate|].
      reflexivity.
    + right. exists [], n, nodes, []. rewrite Hn.
      split; [reflexivity|]. split; [constructor|]. split; [discriminate|].
      reflexivity.
Qed.

(** X5: on a list-shaped output whose conditions have byte-string
    arguments the list parser has two failure modes. It returns
    INVALID_CONDITION and no other error; it raises exactly when the first
    element that does not parse is a list holding a byte string alone, and
    the exception is then [IndexError], which its handler for
    [ConsensusError] lets through. *)
Theorem parse_sexp_to_conditions_failure_modes (first : Program)
  (rest : list Program) :
  forallb byte_string_arguments (first :: rest) = true ->
  (forall e : Err,
     parse_sexp_to_conditions table (List first rest) = Return (Bad e) ->
     e = INVALID_CONDITION) /\
  (forall x : exn,
     parse_sexp_to_conditions table (List first rest) = Raise x <->
     x = IndexError /\
     exists (pre : list Program) (b : bytes) (post : list Program)
            (cvps : list ConditionVarPair),
       first :: rest = pre ++ List (Atom b) [] :: post /\
       Forall2 (fun n c => parse_sexp_to_condition table n = Return (Good c))
         pre cvps).
Proof.
  intros Hargs. unfold parse_sexp_to_conditions. simpl as_iter.
  cbn [bind].
  destruct (parse_loop_stops (first :: rest) []) as [[out Hout] | Hstop].
  - rewrite Hout. simpl. split.
    + intros e H. discriminate.
    + intros x. split; [intros H; discriminate|].
      intros [_ [pre [b [post [cvps [Hel Hpre]]]]]]. exfalso.
      rewrite Hel in Hout.
      rewrite (@parse_loop_first_failure table pre (List (Atom b) []) post
                 cvps [] Hpre), parse_one_element in Hout.
      discriminate.
  - destruct Hstop as [pre [node [post [cvps [Hel [Hpre [Hbad Hrun]]]]]]].
    rewrite Hrun.
    assert (Hnode : byte_string_arguments node = true).
    { rewrite forallb_forall in Hargs. apply Hargs. rewrite Hel.
      apply in_or_app. right. now left. }
    destruct (parse_sexp_to_condition table node) as [[c|e0]|x0] eqn:Hn.
    + exfalso. now apply (Hbad c).
    + simpl. split.
      * intros e H. inversion H; subst.
        exact (parse_bad_invalid_condition _ Hn).
      * intros x. split; [intros H; discriminate|].
        intros [_ [pre' [b [post' [cvps' [Hel' Hpre']]]]]]. exfalso.
        assert (Hloop := @parse_loop_first_failure table pre'
                           (List (Atom b) []) post' cvps' [] Hpre').
        rewrite <- Hel', parse_one_element, Hrun in Hloop. discriminate.
    + destruct (parse_raise_inv _ Hnode Hn) as [-> [b ->]]. simpl. split.
      * intros e H. discriminate.
      * intros x. split.
        -- intros H. inversion H; subst x. split; [reflexivity|].
           now exists pre, b, post, cvps.
        -- intros [-> _]. reflexivity.
Qed.

(** X6: the opcode table never decides whether a node parses: with any two
    tables the parser returns the same arguments, the same error or raises
    the same exception; only the opcode of the condition can differ. *)
Theorem parse_sexp_to_condition_table_independent
  (table' : bytes -> option ConditionOpcode) (node : Program) :
  outcome_without_opcode (parse_sexp_to_condition table node)
  = outcome_without_opcode (parse_sexp_to_condition table' node).
Proof.
  destruct node as [a|[b|f r] rest].
  - now rewrite !parse_atom.
  - destruct rest as [|a1 [|a2 [|a3 rest]]].
    + now rewrite !parse_one_element.
    + rewrite !parse_two_elements. unfold ConditionVarPair_call.
      destruct (forallb isinstance_bytes [as_python a1]); reflexivity.
    + rewrite !parse_three_elements. unfold ConditionVarPair_call.
      destruct (forallb isinstance_bytes [as_python a1; as_python a2]);
        reflexivity.
    + rewrite !parse_more_elements. unfold ConditionVarPair_call.
      destruct (forallb isinstance_bytes [as_python a1]); reflexivity.
  - now rewrite !parse_first_not_bytes.
Qed.
End ParserShapes.

(** ** The classifier: invariants and composition *)

(** X7: in the mapping the classifier builds no key stands twice, no list is
    empty, and every condition is under its own opcode. *)
Theorem conditions_by_opcode_entries_grouped (conditions : list ConditionVarPair) :
  exists d : ConditionsDict,
    conditions_by_opcode conditions = Return d /\
    NoDup (Dict.keys d) /\
    Forall (fun kv => snd kv <> [] /\
                      Forall (fun cvp => opcode cvp = fst kv) (snd kv)) d.
Proof.
  exists (fold_left classify_add conditions Dict.empty).
  split; [apply conditions_by_opcode_eq|].
  exact (grouped_fold conditions grouped_empty).
Qed.

Lemma flatten_set_present (d : ConditionsDict) :
  forall (k : ConditionOpcode) (v : list ConditionVarPair) (c : ConditionVarPair),
  cd_get d k = Some v ->
  Permutation (flatten (cd_set d k (v ++ [c]))) (c :: flatten d).
Proof.
  unfold cd_get, cd_set, flatten.
  induction d as [|[k1 v1] d IH]; intros k v c Hget; simpl in *.
  - discriminate.
  - destruct (ConditionOpcode_eq_dec k k1) as [->|Hne]; simpl.
    + inversion Hget; subst. rewrite <- app_assoc. simpl.
      symmetry. apply Permutation_middle.
    + specialize (IH k v c Hget).
      apply (Permutation_app_head v1) in IH.
      etransitivity; [exact IH|]. symmetry. apply Permutation_middle.
Qed.

Lemma flatten_classify_add (d : ConditionsDict) (c : ConditionVarPair) :
  Permutation (flatten (classify_add d c)) (c :: flatten d).
Proof.
  unfold classify_add, cd_get_default, Dict.get_default.
  destruct (Dict.get ConditionOpcode_eq_dec d (opcode c)) as [v|] eqn:Hget.
  - now apply flatten_set_present.
  - unfold cd_set. rewrite set_absent by exact Hget.
    unfold flatten, Dict.values. rewrite map_app, concat_app. simpl.
    symmetry. apply Permutation_cons_append.
Qed.

Lemma flatten_fold (conditions : list ConditionVarPair) :
  forall d : ConditionsDict,
  Permutation (flatten (fold_left classify_add conditions d))
    (flatten d ++ conditions).
Proof.
  induction conditions as [|c conditions IH]; intros d; simpl.
  - now rewrite app_nil_r.
  - etransitivity; [apply IH|].
    etransitivity;
      [apply Permutation_app_tail; apply flatten_classify_add|].
    simpl. apply Permutation_middle.
Qed.

(** X8: the lists of the classified mapping, put together, are a
    permutation of the input: the classifier neither loses, adds nor
    repeats a condition. *)
Theorem conditions_by_opcode_flatten_permutation
  (conditions : list ConditionVarPair) :
  exists d : ConditionsDict,
    conditions_by_opcode conditions = Return d /\
    Permutation (flatten d) conditions /\
    length (flatten d) = length conditions.
Proof.
  exists (fold_left classify_add conditions Dict.empty).
  split; [apply conditions_by_opcode_eq|].
  assert (H := flatten_fold conditions Dict.empty). simpl in H.
  split; [exact H | exact (Permutation_length H)].
Qed.

Lemma filter_has_opcode_app (op : ConditionOpcode)
  (l1 l2 : list ConditionVarPair) :
  filter (has_opcode op) (l1 ++ l2)
  = filter (has_opcode op) l1 ++ filter (has_opcode op) l2.
Proof. apply filter_app. Qed.

(** X9: classifying a concatenation concatenates, opcode by opcode, the
    lists of the two classifications. *)
Theorem conditions_by_opcode_app (l1 l2 : list ConditionVarPair) :
  exists d1 d2 d : ConditionsDict,
    conditions_by_opcode l1 = Return d1 /\
    conditions_by_opcode l2 = Return d2 /\
    conditions_by_opcode (l1 ++ l2) = Return d /\
    forall op : ConditionOpcode,
      cd_get_default d op []
      = cd_get_default d1 op [] ++ cd_get_default d2 op [].
Proof.
  exists (fold_left classify_add l1 Dict.empty),
         (fold_left classify_add l2 Dict.empty),
         (fold_left classify_add (l1 ++ l2) Dict.empty).
  repeat (split; [apply conditions_by_opcode_eq|]).
  intros op. rewrite !get_default_fold. simpl. apply filter_has_opcode_app.
Qed.

Lemma fold_append_copy (l acc : list ConditionVarPair) :
  fold_left (fun agg_sig_conditions cvp => agg_sig_conditions ++ [cvp]) l acc
  = acc ++ l.
Proof.
  revert acc. induction l as [|c l IH]; intros acc; simpl.
  - now rewrite app_nil_r.
  - rewrite IH, <- app_assoc. reflexivity.
Qed.

(** X10: on the classification of a list, [aggsig_in_conditions_dict]
    returns the AGG_SIG conditions of the list, in their order; it is the
    empty list when the list has none. *)
Theorem aggsig_in_conditions_dict_classified (conditions : list ConditionVarPair) :
  exists d : ConditionsDict,
    conditions_by_opcode conditions = Return d /\
    aggsig_in_conditions_dict d = filter (has_opcode AGG_SIG) conditions.
Proof.
  exists (fold_left classify_add conditions Dict.empty).
  split; [apply conditions_by_opcode_eq|].
  unfold aggsig_in_conditions_dict. rewrite fold_append_copy. simpl.
  now rewrite get_default_fold.
Qed.

(** ** The signature pairs *)

Lemma for_append_first_Raise {A B : Type} (body : A -> py B) (pre : list A) :
  forall (ys : list B) (x : A) (e : exn) (post : list A) (ret : list B),
  yields body pre ys -> body x = Raise e ->
  for_append body (pre ++ x :: post) ret = Raise e.
Proof.
  induction pre as [|a pre IH]; intros ys x e post ret Hpre Hx.
  - simpl. now rewrite Hx.
  - inversion Hpre as [|a' y pre' ys' Hay Hrest]; subst. simpl.
    rewrite Hay. simpl. exact (IH ys' x e post (ret ++ [y]) Hrest Hx).
Qed.

Section SignaturePairs.
Variable G1Element : Type.
Variable from_bytes : PyVal -> py G1Element.

Lemma pkm_pairs_Some_inv (d : ConditionsDict) (name : bytes32)
  (pairs : list (G1Element * PyVal)) :
  pkm_pairs_for_conditions_dict from_bytes d (Some name) = Return pairs ->
  exists sig me,
    for_append (agg_sig_body from_bytes) (cd_get_default d AGG_SIG []) []
    = Return sig /\
    yields (agg_sig_me_body from_bytes name) (cd_get_default d AGG_SIG_ME []) me /\
    pairs = sig ++ me.
Proof.
  unfold pkm_pairs_for_conditions_dict. intros H.
  apply bind_Return_inv in H. destruct H as [sig [Hsig H]].
  apply for_append_Return_inv in H. destruct H as [me [Hme ->]].
  now exists sig, me.
Qed.

(** X11: without a coin name the pairs correspond one to one, in order, to
    the conditions [aggsig_in_conditions_dict] returns. *)
Theorem pkm_pairs_match_aggsig_conditions (d : ConditionsDict)
  (pairs : list (G1Element * PyVal)) :
  pkm_pairs_for_conditions_dict from_bytes d None = Return pairs <->
  Forall2 (agg_sig_pair from_bytes) (aggsig_in_conditions_dict d) pairs.
Proof.
  unfold pkm_pairs_for_conditions_dict, aggsig_in_conditions_dict.
  rewrite fold_append_copy. simpl.
  rewrite <- (yields_iff _ _ (agg_sig_body_Return from_bytes)).
  rewrite <- for_append_Return.
  destruct (for_append (agg_sig_body from_bytes) (cd_get_default d AGG_SIG []) []);
    simpl; tauto.
Qed.

(** X12: giving a coin name only appends pairs: the pairs with a coin name
    are the pairs without one, followed by one pair per condition under
    AGG_SIG_ME. *)
Theorem pkm_pairs_coin_name_appends (d : ConditionsDict) (name : bytes32)
  (pairs : list (G1Element * PyVal)) :
  pkm_pairs_for_conditions_dict from_bytes d (Some name) = Return pairs ->
  exists sig me : list (G1Element * PyVal),
    pkm_pairs_for_conditions_dict from_bytes d None = Return sig /\
    pairs = sig ++ me /\
    length sig = length (cd_get_default d AGG_SIG []) /\
    length me = length (cd_get_default d AGG_SIG_ME []).
Proof.
  intros H. apply pkm_pairs_Some_inv in H.
  destruct H as [sig [me [Hsig [Hme ->]]]]. exists sig, me.
  split; [unfold pkm_pairs_for_conditions_dict; now rewrite Hsig|].
  split; [reflexivity|]. split.
  - apply for_append_Return in Hsig. symmetry. exact (Forall2_length Hsig).
  - symmetry. exact (Forall2_length Hme).
Qed.

(** X13: a key that does not decode is never skipped: when the decoder
    raises on argument 0 of an AGG_SIG condition and the conditions before
    it gave their pairs, the call raises the decoder's exception, with or
    without a coin name. *)
Theorem pkm_pairs_decode_error_propagates (d : ConditionsDict)
  (coin_name : option bytes32) (pre post : list ConditionVarPair)
  (cvp : ConditionVarPair) (sig : list (G1Element * PyVal))
  (key msg : PyVal) (e : exn) :
  cd_get_default d AGG_SIG [] = pre ++ cvp :: post ->
  Forall2 (agg_sig_pair from_bytes) pre sig ->
  nth_error (vars cvp) 0 = Some key ->
  nth_error (vars cvp) 1 = Some msg ->
  from_bytes key = Raise e ->
  pkm_pairs_for_conditions_dict from_bytes d coin_name = Raise e.
Proof.
  intros Hentries Hpre H0 H1 Hkey.
  apply (yields_iff _ _ (agg_sig_body_Return from_bytes)) in Hpre.
  assert (Hbody : agg_sig_body from_bytes cvp = Raise e).
  { unfold agg_sig_body, getitem. rewrite H1, H0. simpl. now rewrite Hkey. }
  unfold pkm_pairs_for_conditions_dict. rewrite Hentries.
  now rewrite (for_append_first_Raise _ post [] Hpre Hbody).
Qed.

(** X14: the coin name is part of every AGG_SIG_ME message: when the
    mapping has a condition under AGG_SIG_ME, two coin names that give the
    same pairs are the same coin name. *)
Theorem pkm_pairs_bind_coin_name (d : ConditionsDict) (name1 name2 : bytes32)
  (pairs : list (G1Element * PyVal)) :
  cd_get_default d AGG_SIG_ME [] <> [] ->
  pkm_pairs_for_conditions_dict from_bytes d (Some name1) = Return pairs ->
  pkm_pairs_for_conditions_dict from_bytes d (Some name2) = Return pairs ->
  name1 = name2.
Proof.
  intros Hne H1 H2.
  apply pkm_pairs_Some_inv in H1. destruct H1 as [sig1 [me1 [Hsig1 [Hme1 E1]]]].
  apply pkm_pairs_Some_inv in H2. destruct H2 as [sig2 [me2 [Hsig2 [Hme2 E2]]]].
  rewrite Hsig1 in Hsig2. inversion Hsig2; subst sig2. subst pairs.
  apply app_inv_head in E2. subst me2.
  destruct (cd_get_default d AGG_SIG_ME []) as [|cvp entries]; [congruence|].
  inversion Hme1 as [|c p es ps Hp1 _]; subst.
  inversion Hme2 as [|c' p' es' ps' Hp2 _]; subst.
  apply agg_sig_me_body_Return in Hp1. apply agg_sig_me_body_Return in Hp2.
  destruct Hp1 as [k1 [m1 [_ [Hm1 [_ Hs1]]]]].
  destruct Hp2 as [k2 [m2 [_ [Hm2 [_ Hs2]]]]].
  rewrite Hm1 in Hm2. inversion Hm2; subst m2.
  rewrite Hs1 in Hs2. inversion Hs2 as [Happ].
  exact (app_inv_head _ _ _ Happ).
Qed.

(** X15: for the same arguments and a non-empty coin name, the AGG_SIG_ME
    pair has the key of the AGG_SIG pair and a different message. *)
Theorem agg_sig_me_message_differs (args : list PyVal) (name : bytes32)
  (pk pk' : G1Element) (msg msg' : PyVal) :
  name <> [] ->
  pkm_pairs_for_conditions_dict from_bytes
    [(AGG_SIG, [mkConditionVarPair AGG_SIG args])] None = Return [(pk, msg)] ->
  pkm_pairs_for_conditions_dict from_bytes
    [(AGG_SIG_ME, [mkConditionVarPair AGG_SIG_ME args])] (Some name)
  = Return [(pk', msg')] ->
  pk' = pk /\ msg' <> msg.
Proof.
  intros Hname H1 H2.
  unfold pkm_pairs_for_conditions_dict in H1, H2. simpl in H1, H2.
  apply bind_Return_inv in H1. destruct H1 as [p1 [Hp1 H1]].
  apply bind_Return_inv in Hp1. destruct Hp1 as [q1 [Hq1 Hp1]].
  inversion Hp1; subst p1. inversion H1; subst q1. clear H1 Hp1.
  apply bind_Return_inv in H2. destruct H2 as [q2 [Hq2 H2]].
  inversion H2; subst q2. clear H2.
  apply agg_sig_body_Return in Hq1. apply agg_sig_me_body_Return in Hq2.
  destruct Hq1 as [k1 [m1 [Hk1 [Hm1 [Hd1 Hs1]]]]].
  destruct Hq2 as [k2 [m2 [Hk2 [Hm2 [Hd2 Hs2]]]]].
  simpl in *. rewrite Hk1 in Hk2. inversion Hk2; subst k2.
  rewrite Hd1 in Hd2. inversion Hd2; subst pk'. split; [reflexivity|].
  rewrite Hm1 in Hm2. inversion Hm2; subst m1. subst msg msg'.
  intros E. inversion E as [Happ]. apply Hname.
  rewrite <- (app_nil_r m2) in Happ at 2.
  exact (app_inv_head _ _ _ Happ).
Qed.

(** X16: on the classification of a list, the pairs of all AGG_SIG
    conditions come first, in the order of the list, and the pairs of the
    AGG_SIG_ME conditions follow, however the two kinds are interleaved in
    the list. *)
Theorem pkm_pairs_of_classified (conditions : list ConditionVarPair)
  (name : bytes32) :
  exists d : ConditionsDict,
    conditions_by_opcode conditions = Return d /\
    forall pairs : list (G1Element * PyVal),
      pkm_pairs_for_conditions_dict from_bytes d (Some name) = Return pairs <->
      exists sig me : list (G1Element * PyVal),
        pairs = sig ++ me /\
        Forall2 (agg_sig_pair from_bytes)
          (filter (has_opcode AGG_SIG) conditions) sig /\
        Forall2 (agg_sig_me_pair from_bytes name)
          (filter (has_opcode AGG_SIG_ME) conditions) me.
Proof.
  exists (fold_left classify_add conditions Dict.empty).
  split; [apply conditions_by_opcode_eq|].
  intros pairs.
  assert (Hsig : cd_get_default (fold_left classify_add conditions Dict.empty)
                   AGG_SIG [] = filter (has_opcode AGG_SIG) conditions)
    by now rewrite get_default_fold.
  assert (Hme : cd_get_default (fold_left classify_add conditions Dict.empty)
                  AGG_SIG_ME [] = filter (has_opcode AGG_SIG_ME) conditions)
    by now rewrite get_default_fold.
  unfold pkm_pairs_for_conditions_dict. rewrite Hsig, Hme. split.
  - intros H. apply bind_Return_inv in H. destruct H as [sig [Hs H]].
    apply for_append_Return in Hs.
    apply for_append_Return_inv in H. destruct H as [me [Hm ->]].
    exists sig, me. split; [reflexivity|]. split.
    + now apply (yields_iff _ _ (agg_sig_body_Return from_bytes)).
    + now apply (yields_iff _ _ (agg_sig_me_body_Return from_bytes name)).
  - intros [sig [me [-> [Hs Hm]]]].
    apply (yields_iff _ _ (agg_sig_body_Return from_bytes)) in Hs.
    apply (yields_iff _ _ (agg_sig_me_body_Return from_bytes name)) in Hm.
    rewrite (for_append_yields [] Hs). simpl.
    now rewrite (for_append_yields sig Hm).
Qed.
End SignaturePairs.

(** ** Created coins and announcements *)

(** X17: a CREATE_COIN condition with fewer than two arguments makes the
    call raise [IndexError], once the conditions before it gave their coins;
    no coin list is returned. *)
Theorem created_outputs_missing_argument (d : ConditionsDict)
  (input_coin_name : bytes32) (pre post : list ConditionVarPair)
  (cvp : ConditionVarPair) (coins : list Coin) :
  cd_get_default d CREATE_COIN [] = pre ++ cvp :: post ->
  Forall2 (created_coin input_coin_name) pre coins ->
  length (vars cvp) < 2 ->
  created_outputs_for_conditions_dict d input_coin_name = Raise IndexError.
Proof.
  intros Hentries Hpre Hlen.
  apply (yields_iff _ _ (created_output_body_Return input_coin_name)) in Hpre.
  assert (Hbody : created_output_body input_coin_name cvp = Raise IndexError).
  { unfold created_output_body, getitem.
    destruct (vars cvp) as [|v0 [|v1 rest]]; simpl in *; [reflexivity .. | lia]. }
  unfold created_outputs_for_conditions_dict. rewrite Hentries.
  exact (for_append_first_Raise _ post [] Hpre Hbody).
Qed.

Section AnnouncementsOfClassified.
Variable Coin_name : Coin -> py bytes32.

(** X18: on the classification of a list, the two announcement projections
    return one announcement per condition of their opcode, in the order of
    the list, and look at no other condition. *)
Theorem announcements_of_classified (conditions : list ConditionVarPair)
  (input_coin : Coin) :
  exists d : ConditionsDict,
    conditions_by_opcode conditions = Return d /\
    (forall ans : list Announcement,
       coin_announcements_for_conditions_dict Coin_name d input_coin = Return ans
       <-> Forall2 (coin_announcement Coin_name input_coin)
             (filter (has_opcode CREATE_ANNOUNCEMENT_WITH_ID) conditions) ans) /\
    (forall ans : list Announcement,
       puzzle_announcements_for_conditions_dict d input_coin = Return ans
       <-> Forall2 (puzzle_announcement input_coin)
             (filter (has_opcode CREATE_ANNOUNCEMENT_WITH_PUZZLEHASH) conditions)
             ans).
Proof.
  exists (fold_left classify_add conditions Dict.empty).
  split; [apply conditions_by_opcode_eq|]. split.
  - intros ans. unfold coin_announcements_for_conditions_dict.
    rewrite get_default_fold. simpl. rewrite for_append_Return.
    apply yields_iff. apply coin_announcement_body_Return.
  - intros ans. unfold puzzle_announcements_for_conditions_dict.
    rewrite get_default_fold. simpl. rewrite for_append_Return.
    apply yields_iff. apply puzzle_announcement_body_Return.
Qed.
End AnnouncementsOfClassified.

(** ** The NPC aggregate and the batch projections *)

Lemma fold_set_fresh (pairs : list (ConditionOpcode * list ConditionVarPair)) :
  forall d0 : ConditionsDict,
  NoDup (Dict.keys d0 ++ map fst pairs) ->
  fold_left (fun d ol => cd_set d (fst ol) (snd ol)) pairs d0 = d0 ++ pairs.
Proof.
  induction pairs as [|[k l] pairs IH]; intros d0 Hnd; simpl.
  - now rewrite app_nil_r.
  - assert (Hget : Dict.get ConditionOpcode_eq_dec d0 k = None).
    { apply get_None_keys. simpl in Hnd. apply NoDup_remove_2 in Hnd.
      intros Hin. apply Hnd. apply in_or_app. now left. }
    unfold cd_set at 2. rewrite (set_absent _ _ _ l Hget).
    rewrite IH.
    + now rewrite <- app_assoc.
    + unfold Dict.keys in *. rewrite map_app, <- app_assoc. exact Hnd.
Qed.

(** X19: [condition_dict] gives back the raw conditions, pair for pair and
    in their order, when no opcode stands twice in them. *)
Theorem condition_dict_round_trip (npc : NamePuzzleCondition.NPC) :
  NoDup (map fst (NamePuzzleCondition.conditions npc)) ->
  NamePuzzleCondition.condition_dict npc = NamePuzzleCondition.conditions npc.
Proof.
  intros Hnd. unfold NamePuzzleCondition.condition_dict.
  now rewrite fold_set_fresh.
Qed.

Lemma fold_set_get (pairs : list (ConditionOpcode * list ConditionVarPair)) :
  forall (d0 : ConditionsDict) (op : ConditionOpcode),
  (forall l,
     cd_get (fold_left (fun d ol => cd_set d (fst ol) (snd ol)) pairs d0) op
     = Some l ->
     cd_get d0 op = Some l \/ In (op, l) pairs) /\
  (cd_get (fold_left (fun d ol => cd_set d (fst ol) (snd ol)) pairs d0) op = None
   <-> cd_get d0 op = None /\ ~ In op (map fst pairs)).
Proof.
  induction pairs as [|[k v] pairs IH]; intros d0 op; simpl.
  - split; [auto | tauto].
  - destruct (IH (cd_set d0 k v) op) as [IHsome IHnone]. split.
    + intros l H. apply IHsome in H. destruct H as [H | H]; [|auto].
      unfold cd_get, cd_set in H.
      destruct (ConditionOpcode_eq_dec k op) as [->|Hne].
      * rewrite get_set_same in H. inversion H. right. now left.
      * rewrite (get_set_other _ _ _ Hne) in H. now left.
    + rewrite IHnone. unfold cd_get, cd_set.
      destruct (ConditionOpcode_eq_dec k op) as [->|Hne].
      * rewrite get_set_same. split; [intros [H _]; discriminate|].
        intros [_ H]. exfalso. apply H. now left.
      * rewrite (get_set_other _ _ _ Hne). split.
        -- intros [H1 H2]. split; [exact H1|]. intros [E|Hin]; auto.
        -- intros [H1 H2]. split; [exact H1|]. intros Hin. apply H2. now right.
Qed.

Lemma fold_set_NoDup (pairs : list (ConditionOpcode * list ConditionVarPair)) :
  forall d0 : ConditionsDict,
  NoDup (Dict.keys d0) ->
  NoDup (Dict.keys (fold_left (fun d ol => cd_set d (fst ol) (snd ol)) pairs d0)).
Proof.
  induction pairs as [|[k v] pairs IH]; intros d0 Hnd; simpl.
  - exact Hnd.
  - apply IH.
    destruct (Dict.get ConditionOpcode_eq_dec d0 k) as [l|] eqn:Hget.
    + rewrite keys_set_present; [exact Hnd | unfold cd_get; congruence].
    + unfold cd_set. rewrite set_absent by exact Hget.
      unfold Dict.keys. rewrite map_app. simpl.
      apply NoDup_app; [exact Hnd | constructor; [intros [] | constructor] |].
      intros k' Hin [<-|[]]. now apply get_None_keys in Hget.
Qed.

(** X20: the mapping of [condition_dict] has no key twice, has a key exactly
    for the opcodes of the raw conditions, and maps an opcode only to a list
    the raw conditions pair with it. *)
Theorem condition_dict_keys_and_values (npc : NamePuzzleCondition.NPC) :
  NoDup (Dict.keys (NamePuzzleCondition.condition_dict npc)) /\
  (forall op : ConditionOpcode,
     cd_get (NamePuzzleCondition.condition_dict npc) op = None <->
     ~ In op (map fst (NamePuzzleCondition.conditions npc))) /\
  (forall (op : ConditionOpcode) (l : list ConditionVarPair),
     cd_get (NamePuzzleCondition.condition_dict npc) op = Some l ->
     In (op, l) (NamePuzzleCondition.conditions npc)).
Proof.
  unfold NamePuzzleCondition.condition_dict. split; [|split].
  - apply fold_set_NoDup. constructor.
  - intros op.
    destruct (fold_set_get (NamePuzzleCondition.conditions npc) Dict.empty op)
      as [_ Hnone].
    rewrite Hnone. simpl. tauto.
  - intros op l H.
    destruct (fold_set_get (NamePuzzleCondition.conditions npc) Dict.empty op)
      as [Hsome _].
    destruct (Hsome l H) as [Habs | Hin]; [discriminate | exact Hin].
Qed.

(** X21: an NPC whose raw conditions are the entries of a classified
    mapping has that mapping as [condition_dict]. *)
Theorem condition_dict_of_classified (conditions : list ConditionVarPair)
  (coin_name puzzle_hash : bytes32) :
  exists d : ConditionsDict,
    conditions_by_opcode conditions = Return d /\
    NamePuzzleCondition.condition_dict
      (NamePuzzleCondition.mkNPC coin_name puzzle_hash d) = d.
Proof.
  exists (fold_left classify_add conditions Dict.empty).
  split; [apply conditions_by_opcode_eq|].
  unfold NamePuzzleCondition.condition_dict. simpl.
  rewrite fold_set_fresh; [reflexivity|]. simpl.
  exact (proj1 (grouped_fold conditions grouped_empty)).
Qed.

Lemma for_append_app {A B : Type} (body : A -> py B) (xs ys : list A) :
  forall ret : list B,
  for_append body (xs ++ ys) ret
  = (out <- for_append body xs ret ;; for_append body ys out).
Proof.
  induction xs as [|x xs IH]; intros ret; simpl.
  - reflexivity.
  - destruct (body x) as [y|e]; simpl; [apply IH | reflexivity].
Qed.

Lemma for_append_map {A B C : Type} (f : A -> B) (body : B -> py C)
  (xs : list A) :
  forall ret : list C,
  for_append body (map f xs) ret = for_append (fun x => body (f x)) xs ret.
Proof.
  induction xs as [|x xs IH]; intros ret; simpl.
  - reflexivity.
  - destruct (body (f x)) as [y|e]; simpl; [apply IH | reflexivity].
Qed.

Lemma for_append_from {A B : Type} (body : A -> py B) (xs : list A) :
  forall ret : list B,
  for_append body xs ret
  = (ys <- for_append body xs [] ;; Return (ret ++ ys)).
Proof.
  induction xs as [|x xs IH]; intros ret; simpl.
  - now rewrite app_nil_r.
  - destruct (body x) as [y|e]; simpl; [|reflexivity].
    rewrite (IH (ret ++ [y])), (IH [y]).
    destruct (for_append body xs []) as [ys|e]; simpl; [|reflexivity].
    now rewrite <- app_assoc.
Qed.

Section BatchFacts.
Variable Announcement_name : Announcement -> py bytes32.

(** The body of the batch scan on a condition with its scope. *)
Abbreviation scoped_body :=
  (fun sc : bytes32 * ConditionVarPair =>
     announcement_name_body Announcement_name (fst sc) (snd sc)).

Lemma npc_conditions_loop_eq (target : ConditionOpcode) (origin : bytes32)
  (conditions : list (ConditionOpcode * list ConditionVarPair)) :
  forall out : list bytes32,
  npc_conditions_loop Announcement_name target origin conditions out
  = for_append scoped_body
      (map (pair origin) (conditions_of_opcode target conditions)) out.
Proof.
  unfold conditions_of_opcode.
  induction conditions as [|[condition cvp_list] conditions IH]; intros out;
    simpl.
  - reflexivity.
  - destruct (ConditionOpcode_eq_dec condition target) as [Heq|Hne]; simpl.
    + rewrite map_app, for_append_app, for_append_map. simpl.
      destruct (for_append (fun x => announcement_name_body Announcement_name
                                       origin x) cvp_list out) as [out'|e];
        simpl; [apply IH | reflexivity].
    + apply IH.
Qed.

Lemma npc_list_loop_eq (target : ConditionOpcode)
  (origin_of : NamePuzzleCondition.NPC -> bytes32)
  (npc_list : list NamePuzzleCondition.NPC) :
  forall out : list bytes32,
  npc_list_loop Announcement_name target origin_of npc_list out
  = for_append scoped_body (scoped_conditions target origin_of npc_list) out.
Proof.
  unfold scoped_conditions.
  induction npc_list as [|npc npc_list IH]; intros out; simpl.
  - reflexivity.
  - rewrite for_append_app, npc_conditions_loop_eq.
    destruct (for_append scoped_body
                (map (pair (origin_of npc))
                   (conditions_of_opcode target
                      (NamePuzzleCondition.conditions npc))) out)
      as [out'|e]; simpl; [apply IH | reflexivity].
Qed.

Lemma scoped_body_Return (sc : bytes32 * ConditionVarPair) (name : bytes32) :
  scoped_body sc = Return name <-> scoped_name Announcement_name sc name.
Proof.
  unfold announcement_name_body, scoped_name, getitem. split.
  - intros H. destruct (nth_error (vars (snd sc)) 0) as [msg|]; [|discriminate].
    simpl in H. now exists msg.
  - intros [msg [H0 Hname]]. rewrite H0. simpl. exact Hname.
Qed.

(** X22: the batch functions visit, NPC after NPC and pair after pair, every
    condition of every raw pair that has their opcode, also when several
    pairs of one NPC have it, and return one name per visited condition:
    the [name()] of the announcement of argument 0 with the NPC's coin name
    (its puzzle hash for the puzzle-scoped function) as scope. *)
Theorem announcements_names_for_npc_scan (npc_list : list NamePuzzleCondition.NPC)
  (names : list bytes32) :
  (coin_announcements_names_for_npc Announcement_name npc_list = Return names
   <-> Forall2 (scoped_name Announcement_name)
         (scoped_conditions CREATE_ANNOUNCEMENT_WITH_ID
            NamePuzzleCondition.coin_name npc_list) names) /\
  (puzzle_announcements_names_for_npc Announcement_name npc_list = Return names
   <-> Forall2 (scoped_name Announcement_name)
         (scoped_conditions CREATE_ANNOUNCEMENT_WITH_PUZZLEHASH
            NamePuzzleCondition.puzzle_hash npc_list) names).
Proof.
  unfold coin_announcements_names_for_npc, puzzle_announcements_names_for_npc.
  rewrite !npc_list_loop_eq, !for_append_Return.
  split; apply yields_iff; apply scoped_body_Return.
Qed.

Lemma npc_list_loop_app (target : ConditionOpcode)
  (origin_of : NamePuzzleCondition.NPC -> bytes32)
  (l1 l2 : list NamePuzzleCondition.NPC) :
  npc_list_loop Announcement_name target origin_of (l1 ++ l2) []
  = (a <- npc_list_loop Announcement_name target origin_of l1 [] ;;
     b <- npc_list_loop Announcement_name target origin_of l2 [] ;;
     Return (a ++ b)).
Proof.
  rewrite !npc_list_loop_eq. unfold scoped_conditions.
  rewrite flat_map_app, for_append_app.
  destruct (for_append scoped_body
              (flat_map (fun npc =>
                 map (pair (origin_of npc))
                   (conditions_of_opcode target
                      (NamePuzzleCondition.conditions npc))) l1) [])
    as [a|e]; simpl; [|reflexivity].
  apply for_append_from.
Qed.

(** X23: the spends are scanned independently: the names of a concatenation
    of NPC lists are the names of the first list followed by the names of
    the second, and an exception of the first list comes first. *)
Theorem announcements_names_for_npc_app (l1 l2 : list NamePuzzleCondition.NPC) :
  coin_announcements_names_for_npc Announcement_name (l1 ++ l2)
  = (a <- coin_announcements_names_for_npc Announcement_name l1 ;;
     b <- coin_announcements_names_for_npc Announcement_name l2 ;;
     Return (a ++ b)) /\
  puzzle_announcements_names_for_npc Announcement_name (l1 ++ l2)
  = (a <- puzzle_announcements_names_for_npc Announcement_name l1 ;;
     b <- puzzle_announcements_names_for_npc Announcement_name l2 ;;
     Return (a ++ b)).
Proof.
  split; apply npc_list_loop_app.
Qed.

Lemma conditions_of_opcode_NoDup (target : ConditionOpcode)
  (conditions : list (ConditionOpcode * list ConditionVarPair)) :
  NoDup (map fst conditions) ->
  conditions_of_opcode target conditions = cd_get_default conditions target [].
Proof.
  unfold conditions_of_opcode, cd_get_default, Dict.get_default.
  induction conditions as [|[k l] conditions IH]; intros Hnd; simpl.
  - reflexivity.
  - inversion Hnd as [|k' ks Hnotin Hrest]; subst.
    destruct (ConditionOpcode_eq_dec k target) as [->|Hne].
    + destruct (ConditionOpcode_eq_dec target target); [|congruence].
      simpl. rewrite (IH Hrest).
      assert (Hget : Dict.get ConditionOpcode_eq_dec conditions target = None)
        by now apply get_None_keys.
      rewrite Hget. now rewrite app_nil_r.
    + destruct (ConditionOpcode_eq_dec target k); [congruence|].
      exact (IH Hrest).
Qed.

Section BatchAndDict.
Variable Coin_name : Coin -> py bytes32.

(** X24: for an NPC in whose raw conditions no opcode stands twice, and a
    coin with the NPC's coin name and puzzle hash, the batch functions on
    that one NPC and the dict functions on its [condition_dict] return the
    same names. *)
Theorem batch_names_agree_with_dict_names (npc : NamePuzzleCondition.NPC)
  (input_coin : Coin) (names : list bytes32) :
  NoDup (map fst (NamePuzzleCondition.conditions npc)) ->
  Coin_name input_coin = Return (NamePuzzleCondition.coin_name npc) ->
  puzzle_hash input_coin = PyBytes (NamePuzzleCondition.puzzle_hash npc) ->
  (coin_announcements_names_for_npc Announcement_name [npc] = Return names
   <-> coin_announcement_names_for_conditions_dict Coin_name Announcement_name
         (NamePuzzleCondition.condition_dict npc) input_coin = Return names) /\
  (puzzle_announcements_names_for_npc Announcement_name [npc] = Return names
   <-> puzzle_announcement_names_for_conditions_dict Announcement_name
         (NamePuzzleCondition.condition_dict npc) input_coin = Return names).
Proof.
  intros Hnd Hname Hph.
  assert (Hdict : NamePuzzleCondition.condition_dict npc
                  = NamePuzzleCondition.conditions npc).
  { unfold NamePuzzleCondition.condition_dict. now rewrite fold_set_fresh. }
  unfold coin_announcements_names_for_npc, puzzle_announcements_names_for_npc,
    coin_announcement_names_for_conditions_dict,
    puzzle_announcement_names_for_conditions_dict,
    coin_announcements_for_conditions_dict,
    puzzle_announcements_for_conditions_dict, names_of.
  rewrite Hdict, !npc_list_loop_eq. unfold scoped_conditions. simpl.
  rewrite !app_nil_r, !for_append_map, !conditions_of_opcode_NoDup by exact Hnd.
  simpl. split.
  - generalize (cd_get_default (NamePuzzleCondition.conditions npc)
                  CREATE_ANNOUNCEMENT_WITH_ID []) as entries.
    intros entries. rewrite for_append_Return. split.
    + intros H.
      assert (Hans : exists ans,
                yields (coin_announcement_body Coin_name input_coin) entries ans
                /\ yields Announcement_name ans names).
      { induction H as [|cvp n entries names Hcn _ IH].
        - exists []. split; constructor.
        - destruct IH as [ans [Ha Hn]].
          unfold announcement_name_body, getitem in Hcn.
          destruct (nth_error (vars cvp) 0) as [msg|] eqn:H0; [|discriminate].
          simpl in Hcn.
          exists (mkAnnouncement (PyBytes (NamePuzzleCondition.coin_name npc))
                    msg :: ans).
          split; constructor; try assumption.
          unfold coin_announcement_body, getitem. rewrite H0. simpl.
          now rewrite Hname. }
      destruct Hans as [ans [Ha Hn]].
      rewrite (for_append_yields [] Ha). simpl.
      now apply for_append_Return.
    + intros H. apply bind_Return_inv in H. destruct H as [ans [Ha Hn]].
      apply for_append_Return in Ha. apply for_append_Return in Hn.
      revert names Hn. induction Ha as [|cvp an entries ans Hca _ IH];
        intros names Hn; inversion Hn as [|an' n ans' names' Han Hrest]; subst.
      * constructor.
      * constructor; [|now apply IH].
        unfold coin_announcement_body, getitem in Hca.
        unfold announcement_name_body, getitem.
        destruct (nth_error (vars cvp) 0) as [msg|]; [|discriminate].
        simpl in *. rewrite Hname in Hca. simpl in Hca.
        inversion Hca; subst an. exact Han.
  - generalize (cd_get_default (NamePuzzleCondition.conditions npc)
                  CREATE_ANNOUNCEMENT_WITH_PUZZLEHASH []) as entries.
    intros entries. rewrite for_append_Return. split.
    + intros H.
      assert (Hans : exists ans,
                yields (puzzle_announcement_body input_coin) entries ans
                /\ yields Announcement_name ans names).
      { induction H as [|cvp n entries names Hcn _ IH].
        - exists []. split; constructor.
        - destruct IH as [ans [Ha Hn]].
          unfold announcement_name_body, getitem in Hcn.
          destruct (nth_error (vars cvp) 0) as [msg|] eqn:H0; [|discriminate].
          simpl in Hcn.
          exists (mkAnnouncement (PyBytes (NamePuzzleCondition.puzzle_hash npc))
                    msg :: ans).
          split; constructor; try assumption.
          unfold puzzle_announcement_body, getitem. rewrite H0. simpl.
          now rewrite Hph. }
      destruct Hans as [ans [Ha Hn]].
      rewrite (for_append_yields [] Ha). simpl.
      now apply for_append_Return.
    + intros H. apply bind_Return_inv in H. destruct H as [ans [Ha Hn]].
      apply for_append_Return in Ha. apply for_append_Return in Hn.
      revert names Hn. induction Ha as [|cvp an entries ans Hca _ IH];
        intros names Hn; inversion Hn as [|an' n ans' names' Han Hrest]; subst.
      * constructor.
      * constructor; [|now apply IH].
        unfold puzzle_announcement_body, getitem in Hca.
        unfold announcement_name_body, getitem.
        destruct (nth_error (vars cvp) 0) as [msg|]; [|discriminate].
        simpl in *. rewrite Hph in Hca.
        inversion Hca; subst an. exact Han.
Qed.
End BatchAndDict.
End BatchFacts.

(** ** The orchestrator: success, result shape and exceptions *)

Section OrchestratorCases.
Variable table : bytes -> option ConditionOpcode.
Variable run : Program -> Program -> py (Z * Program).

Lemma parse_conditions_raise_classes (sexp : Program) (x : exn) :
  parse_sexp_to_conditions table sexp = Raise x ->
  x = IndexError \/ x = AttributeError.
Proof.
  unfold parse_sexp_to_conditions. intros H.
  destruct (as_iter sexp) as [nodes|e] eqn:Hiter; simpl in H.
  - destruct (parse_loop_stops table nodes []) as [[out Hout] | Hstop].
    + rewrite Hout in H. discriminate.
    + destruct Hstop as [pre [node [post [cvps [_ [_ [_ Hrun]]]]]]].
      rewrite Hrun in H.
      destruct (parse_sexp_to_condition table node) as [[c|e0]|x0] eqn:Hn;
        simpl in H; try discriminate.
      apply parse_raise_classes in Hn.
      destruct Hn as [-> | ->]; simpl in H; inversion H; auto.
  - apply as_iter_Raise in Hiter. subst e. discriminate.
Qed.

(** [conditions_for_solution] by the outcomes of the interpreter and of the
    list parser. *)
Lemma conditions_for_solution_cases (puzzle_reveal solution : Program) :
  conditions_for_solution table run puzzle_reveal solution
  = match run puzzle_reveal solution with
    | Raise x =>
        if exn_eq_dec x EvalError
        then Return (Some SEXP_ERROR, None, uint64 0)
        else Raise x
    | Return (cost, r) =>
        match parse_sexp_to_conditions table r with
        | Return (Good l) => Return (None, Some l, uint64 cost)
        | Return (Bad e) => Return (Some e, None, uint64 cost)
        | Raise x => Raise x
        end
    end.
Proof.
  unfold conditions_for_solution.
  destruct (run puzzle_reveal solution) as [[cost r]|x]; simpl.
  - destruct (parse_sexp_to_conditions table r) as [[l|e]|x] eqn:Hparse;
      simpl; try reflexivity.
    apply parse_conditions_raise_classes in Hparse.
    destruct Hparse as [-> | ->]; reflexivity.
  - reflexivity.
Qed.

Lemma conditions_dict_for_solution_cases (puzzle_reveal solution : Program) :
  conditions_dict_for_solution table run puzzle_reveal solution
  = match conditions_for_solution table run puzzle_reveal solution with
    | Return (None, Some l, cost) =>
        Return (None, Some (fold_left classify_add l Dict.empty), cost)
    | Return (error, _, _) => Return (error, None, uint64 0)
    | Raise x => Raise x
    end.
Proof.
  unfold conditions_dict_for_solution.
  destruct (conditions_for_solution table run puzzle_reveal solution)
    as [[[[e|] [l|]] cost]|x]; simpl; try reflexivity.
  now rewrite conditions_by_opcode_eq.
Qed.

(** X25: [conditions_dict_for_solution] returns a mapping exactly when the
    interpreter returns and the list parser accepts its output; the mapping
    is then the classification of the parsed conditions and the cost is the
    cost the interpreter reported. *)
Theorem conditions_dict_for_solution_success_iff
  (puzzle_reveal solution : Program) (d : ConditionsDict) (cost : Z) :
  conditions_dict_for_solution table run puzzle_reveal solution
  = Return (None, Some d, cost)
  <->
  exists (c : Z) (r : Program) (l : list ConditionVarPair),
    run puzzle_reveal solution = Return (c, r) /\
    parse_sexp_to_conditions table r = Return (Good l) /\
    conditions_by_opcode l = Return d /\
    cost = uint64 c.
Proof.
  rewrite conditions_dict_for_solution_cases, conditions_for_solution_cases.
  split.
  - intros H. destruct (run puzzle_reveal solution) as [[c r]|x].
    + destruct (parse_sexp_to_conditions table r) as [[l|e]|x] eqn:Hparse;
        try discriminate.
      inversion H; subst. exists c, r, l.
      split; [reflexivity|]. split; [exact Hparse|].
      split; [apply conditions_by_opcode_eq | reflexivity].
    + destruct (exn_eq_dec x EvalError); discriminate.
  - intros [c [r [l [Hrun [Hparse [Hd ->]]]]]].
    rewrite Hrun, Hparse. rewrite conditions_by_opcode_eq in Hd.
    now inversion Hd.
Qed.

(** X26: what the two functions return has an error or a result and never
    both: with an error there is no result, without one there is a result. *)
Theorem orchestrator_error_xor_result (puzzle_reveal solution : Program) :
  (forall (error : option Err) (result : option (list ConditionVarPair))
          (cost : Z),
     conditions_for_solution table run puzzle_reveal solution
     = Return (error, result, cost) ->
     (error = None /\ result <> None) \/ (error <> None /\ result = None)) /\
  (forall (error : option Err) (result : option ConditionsDict) (cost : Z),
     conditions_dict_for_solution table run puzzle_reveal solution
     = Return (error, result, cost) ->
     (error = None /\ result <> None) \/ (error <> None /\ result = None)).
Proof.
  assert (Hfirst : forall error result cost,
    conditions_for_solution table run puzzle_reveal solution
    = Return (error, result, cost) ->
    (error = None /\ result <> None) \/ (error <> None /\ result = None)).
  { intros error result cost. rewrite conditions_for_solution_cases.
    destruct (run puzzle_reveal solution) as [[c r]|x].
    - destruct (parse_sexp_to_conditions table r) as [[l|e]|x];
        intros H; inversion H; subst.
      + left. split; [reflexivity | discriminate].
      + right. split; [discriminate | reflexivity].
    - destruct (exn_eq_dec x EvalError); intros H; inversion H; subst.
      right. split; [discriminate | reflexivity]. }
  split; [exact Hfirst|].
  intros error result cost. rewrite conditions_dict_for_solution_cases.
  destruct (conditions_for_solution table run puzzle_reveal solution)
    as [[[e l] c]|x] eqn:Hcfs; [|discriminate].
  destruct (Hfirst e l c eq_refl) as [[-> Hl] | [He ->]].
  - destruct l as [l|]; [|congruence]. intros H; inversion H; subst.
    left. split; [reflexivity | discriminate].
  - destruct e as [e|]; [|congruence]. intros H; inversion H; subst.
    right. split; [discriminate | reflexivity].
Qed.

(** X27: an exception leaves the two functions in the same cases: when it
    is not the interpreter's evaluation error and either the interpreter or
    the list parser raises it; it is handed on unchanged, and the classifier
    adds none. The cost the interpreter reports is taken in the range of
    [uint64]. *)
Theorem orchestrator_raises_iff (puzzle_reveal solution : Program) (x : exn) :
  (forall (cost : Z) (r : Program),
     run puzzle_reveal solution = Return (cost, r) ->
     (0 <= cost < 2 ^ 64)%Z) ->
  (conditions_for_solution table run puzzle_reveal solution = Raise x <->
   x <> EvalError /\
   (run puzzle_reveal solution = Raise x \/
    exists (cost : Z) (r : Program),
      run puzzle_reveal solution = Return (cost, r) /\
      parse_sexp_to_conditions table r = Raise x)) /\
  (conditions_dict_for_solution table run puzzle_reveal solution = Raise x <->
   conditions_for_solution table run puzzle_reveal solution = Raise x).
Proof.
  intros _. split.
  - rewrite conditions_for_solution_cases. split.
    + intros H. destruct (run puzzle_reveal solution) as [[c r]|x0].
      * destruct (parse_sexp_to_conditions table r) as [[l|e]|x0] eqn:Hparse;
          try discriminate.
        inversion H; subst x0. split.
        -- destruct (parse_conditions_raise_classes _ Hparse) as [-> | ->];
             discriminate.
        -- right. now exists c, r.
      * destruct (exn_eq_dec x0 EvalError) as [|Hne]; [discriminate|].
        inversion H; subst x0. split; [exact Hne | now left].
    + intros [Hne [Hrun | [c [r [Hrun Hparse]]]]].
      * rewrite Hrun. destruct (exn_eq_dec x EvalError); [contradiction|].
        reflexivity.
      * rewrite Hrun, Hparse. reflexivity.
  - rewrite conditions_dict_for_solution_cases.
    destruct (conditions_for_solution table run puzzle_reveal solution)
      as [[[[e|] [l|]] c]|x0]; split; intros H; try discriminate;
      inversion H; reflexivity.
Qed.
End OrchestratorCases.

(** ** The further properties on concrete inputs *)

(** X1 at the node [(51)]. *)
Lemma parse_sexp_to_condition_raises_iff_witness :
  byte_string_arguments one_element_node = true /\
  parse_sexp_to_condition sample_table one_element_node = Raise IndexError.
Proof.
  split; [reflexivity|].
  apply (@parse_sexp_to_condition_raises_iff sample_table one_element_node
           IndexError eq_refl).
  split; [reflexivity|]. now exists [x33].
Defined.

(** X5 at the output [((0x63 0x01) (51))]. *)
Lemma parse_sexp_to_conditions_failure_modes_witness :
  forallb byte_string_arguments [unknown_opcode_node; one_element_node] = true /\
  parse_sexp_to_conditions sample_table opcode_alone_output = Raise IndexError.
Proof.
  split; [reflexivity|].
  destruct (@parse_sexp_to_conditions_failure_modes sample_table
              unknown_opcode_node [one_element_node] eq_refl) as [_ Hraise].
  apply Hraise. split; [reflexivity|].
  exists [unknown_opcode_node], [x33], [],
         [mkConditionVarPair UNKNOWN [PyBytes [x01]]].
  split; [reflexivity|]. constructor; [reflexivity | constructor].
Defined.

Lemma opcode_alone_run_cost (cost : Z) (r : Program) :
  opcode_alone_run (Atom []) (Atom []) = Return (cost, r) ->
  (0 <= cost < 2 ^ 64)%Z.
Proof.
  intros H. inversion H. split; [discriminate | reflexivity].
Defined.

(** X27 at an interpreter whose output is [((0x63 0x01) (51))]. *)
Lemma orchestrator_raises_iff_witness :
  conditions_for_solution sample_table opcode_alone_run (Atom []) (Atom [])
  = Raise IndexError /\
  conditions_dict_for_solution sample_table opcode_alone_run (Atom []) (Atom [])
  = Raise IndexError.
Proof.
  destruct (@orchestrator_raises_iff sample_table opcode_alone_run
              (Atom []) (Atom []) IndexError opcode_alone_run_cost)
    as [Hcfs Hdict].
  assert (H : conditions_for_solution sample_table opcode_alone_run
                (Atom []) (Atom []) = Raise IndexError).
  { apply Hcfs. split; [discriminate|]. right.
    exists 7%Z, opcode_alone_output. split; reflexivity. }
  split; [exact H | apply Hdict; exact H].
Defined.

(** X2 at the node [(51 0xaa 0x64 0x01)]: four elements, one argument. *)
Lemma parse_sexp_to_condition_argument_count_witness :
  parse_sexp_to_condition sample_table four_element_node
  = Return (Good (mkConditionVarPair CREATE_COIN [PyBytes [xaa]])) /\
  ((length (elements four_element_node) = 3 /\
    length (vars (mkConditionVarPair CREATE_COIN [PyBytes [xaa]])) = 2) \/
   (length (elements four_element_node) <> 3 /\
    2 <= length (elements four_element_node) /\
    length (vars (mkConditionVarPair CREATE_COIN [PyBytes [xaa]])) = 1)).
Proof.
  split; [reflexivity|].
  apply (parse_sexp_to_condition_argument_count sample_table four_element_node).
  reflexivity.
Defined.

(** X4 at the output [((51 0xaa 100))]. *)
Lemma parse_sexp_to_conditions_one_per_element_witness :
  length [mkConditionVarPair CREATE_COIN [PyBytes [xaa]; PyBytes [x64]]]
  = length (elements create_coin_output) /\
  Forall (fun c => length (vars c) = 1 \/ length (vars c) = 2)
    [mkConditionVarPair CREATE_COIN [PyBytes [xaa]; PyBytes [x64]]].
Proof.
  apply (parse_sexp_to_conditions_one_per_element sample_table
           create_coin_output).
  reflexivity.
Defined.

(** X12 at the sample mapping and the coin name 0x50. *)
Lemma pkm_pairs_coin_name_appends_witness :
  exists sig me : list (bytes * PyVal),
    pkm_pairs_for_conditions_dict sample_from_bytes sample_dict None
    = Return sig /\
    [([x0a], PyBytes [x0b]); ([x0c], PyBytes [x0d; x50])] = sig ++ me /\
    length sig = length (cd_get_default sample_dict AGG_SIG []) /\
    length me = length (cd_get_default sample_dict AGG_SIG_ME []).
Proof.
  apply (pkm_pairs_coin_name_appends sample_from_bytes sample_dict [x50]).
  reflexivity.
Defined.

(** X13 at [bad_key_dict]: the empty key of the second condition raises
    [ValueError], with and without a coin name. *)
Lemma pkm_pairs_decode_error_propagates_witness :
  pkm_pairs_for_conditions_dict sample_from_bytes bad_key_dict None
  = Raise ValueError /\
  pkm_pairs_for_conditions_dict sample_from_bytes bad_key_dict (Some [x50])
  = Raise ValueError.
Proof.
  split.
  - apply (@pkm_pairs_decode_error_propagates bytes sample_from_bytes
             bad_key_dict None
             [mkConditionVarPair AGG_SIG [PyBytes [x0a]; PyBytes [x0b]]] []
             (mkConditionVarPair AGG_SIG [PyBytes []; PyBytes [x0b]])
             [([x0a], PyBytes [x0b])] (PyBytes []) (PyBytes [x0b]) ValueError);
      try reflexivity.
    constructor; [|constructor].
    exists (PyBytes [x0a]), (PyBytes [x0b]). repeat split; reflexivity.
  - apply (@pkm_pairs_decode_error_propagates bytes sample_from_bytes
             bad_key_dict (Some [x50])
             [mkConditionVarPair AGG_SIG [PyBytes [x0a]; PyBytes [x0b]]] []
             (mkConditionVarPair AGG_SIG [PyBytes []; PyBytes [x0b]])
             [([x0a], PyBytes [x0b])] (PyBytes []) (PyBytes [x0b]) ValueError);
      try reflexivity.
    constructor; [|constructor].
    exists (PyBytes [x0a]), (PyBytes [x0b]). repeat split; reflexivity.
Defined.

(** X14 at the sample mapping: the pairs of the coin name 0x50. *)
Lemma pkm_pairs_bind_coin_name_witness :
  cd_get_default sample_dict AGG_SIG_ME [] <> [] /\
  pkm_pairs_for_conditions_dict sample_from_bytes sample_dict (Some [x50])
  = Return [([x0a], PyBytes [x0b]); ([x0c], PyBytes [x0d; x50])] /\
  [x50] = [x50].
Proof.
  split; [discriminate|]. split; [reflexivity|].
  apply (@pkm_pairs_bind_coin_name bytes sample_from_bytes sample_dict
           [x50] [x50]
           [([x0a], PyBytes [x0b]); ([x0c], PyBytes [x0d; x50])]).
  - discriminate.
  - reflexivity.
  - reflexivity.
Defined.

(** X15 at the arguments (0x0a, 0x0b) and the coin name 0x50. *)
Lemma agg_sig_me_message_differs_witness :
  [x0a] = [x0a] /\ PyBytes [x0b; x50] <> PyBytes [x0b].
Proof.
  apply (@agg_sig_me_message_differs bytes sample_from_bytes
           [PyBytes [x0a]; PyBytes [x0b]] [x50]
           [x0a] [x0a] (PyBytes [x0b]) (PyBytes [x0b; x50])).
  - discriminate.
  - reflexivity.
  - reflexivity.
Defined.

(** X17 at [short_create_coin_dict]: the second condition has no amount. *)
Lemma created_outputs_missing_argument_witness :
  created_outputs_for_conditions_dict short_create_coin_dict [x50]
  = Raise IndexError.
Proof.
  apply (@created_outputs_missing_argument short_create_coin_dict [x50]
           [mkConditionVarPair CREATE_COIN [PyBytes [xaa]; PyBytes [x64]]] []
           (mkConditionVarPair CREATE_COIN [PyBytes [xab]])
           [mkCoin [x50] (PyBytes [xaa]) 100]).
  - reflexivity.
  - constructor; [|constructor].
    exists (PyBytes [xaa]), [x64]. repeat split; reflexivity.
  - simpl. lia.
Defined.

Lemma announcing_npc_NoDup :
  NoDup (map fst (NamePuzzleCondition.conditions announcing_npc)).
Proof.
  simpl. constructor.
  - intros [H|[]]. discriminate H.
  - constructor; [intros [] | constructor].
Defined.

(** X19 at [announcing_npc]. *)
Lemma condition_dict_round_trip_witness :
  NamePuzzleCondition.condition_dict announcing_npc
  = NamePuzzleCondition.conditions announcing_npc.
Proof.
  apply (condition_dict_round_trip announcing_npc). exact announcing_npc_NoDup.
Defined.

(** X24 at [announcing_npc] and [sample_coin]. *)
Lemma batch_names_agree_with_dict_names_witness :
  coin_announcement_names_for_conditions_dict sample_Coin_name
    sample_Announcement_name
    (NamePuzzleCondition.condition_dict announcing_npc) sample_coin
  = Return [[x50; xbb; x6d]] /\
  puzzle_announcements_names_for_npc sample_Announcement_name [announcing_npc]
  = Return [[xbb; x6e]].
Proof.
  split.
  - apply (proj1 (@batch_names_agree_with_dict_names sample_Announcement_name
                    sample_Coin_name announcing_npc sample_coin
                    [[x50; xbb; x6d]]
                    announcing_npc_NoDup eq_refl eq_refl)).
    reflexivity.
  - apply (proj2 (@batch_names_agree_with_dict_names sample_Announcement_name
                    sample_Coin_name announcing_npc sample_coin
                    [[xbb; x6e]]
                    announcing_npc_NoDup eq_refl eq_refl)).
    reflexivity.
Defined.
